(** * KServe scikit-learn predictor and request batcher

    Part I embeds [python/sklearnserver/sklearnserver/model.py]: the class
    [SKLearnModel] with its methods [load] and [predict], run in a small
    state-and-exception monad over the Python object and a log of the calls
    made to the underlying estimator.

    Part II models the batching engine that sits in front of the predictor
    (accumulate items, close by size or by deadline, one downstream call per
    batch, fan the results out). *)

From Stdlib Require Import Ascii String.
From stdpp Require Import gmap strings list fin_maps.

Open Scope string_scope.

(* ===================================================================== *)
(** * Part I: sklearnserver/model.py                                      *)
(* ===================================================================== *)

Module SKLearn.

(** ** Python values and strings *)

(** JSON-like values carried by request and response bodies.  A float is
    kept as the bit pattern of its binary64 representation: the server never
    computes on it. *)
#[local] Unset Elimination Schemes.
Inductive pyval : Type :=
  | PNone
  | PBool (b : bool)
  | PInt (z : Z)
  | PFloat (bits : Z)
  | PStr (s : string)
  | PList (l : list pyval)
  | PDict (kvs : list (string * pyval)).
#[local] Set Elimination Schemes.

(** [s.endswith(suf)] for one suffix: some tail of [s] is [suf]. *)
Fixpoint endswith1 (s suf : string) : bool :=
  if String.eqb s suf then true
  else match s with
       | EmptyString => false
       | String _ s' => endswith1 s' suf
       end.

(** [s.endswith(t)] for a tuple [t] of suffixes. *)
Definition endswith (s : string) (sufs : list string) : bool :=
  existsb (endswith1 s) sufs.

(** [str.lower] on one character of the ASCII range. *)
Definition ascii_lower (c : ascii) : ascii :=
  let n := nat_of_ascii c in
  if (65 <=? n)%nat && (n <=? 90)%nat then ascii_of_nat (n + 32) else c.

(** [str.lower].  Characters outside the ASCII range are kept: none of them
    lowers to a letter of the word the result is compared with. *)
Fixpoint str_lower (s : string) : string :=
  match s with
  | EmptyString => EmptyString
  | String c s' => String (ascii_lower c) (str_lower s')
  end.

(** [posixpath.join(a, b)], which [os.path.join] is on this platform; the
    [/] of [pathlib] agrees with it on a directory and an entry name. *)
Definition os_path_join (a b : string) : string :=
  if String.prefix "/" b then b
  else if String.eqb a EmptyString || endswith1 a "/" then a ++ b
  else a ++ "/" ++ b.

(** ** Exceptions *)

(** The class of an exception.  Every class derives from [Exception], but
    those of [OtherBaseException], which derive from [BaseException] alone
    ([KeyboardInterrupt], [SystemExit], [GeneratorExit]). *)
Inductive exn_class : Type :=
  | ModelMissingError
  | RuntimeError
  | InferenceError
  | KeyError
  | AttributeError
  | OtherException (cls : string)
  | OtherBaseException (cls : string).

(** [issubclass(c, Exception)] *)
Definition is_Exception (c : exn_class) : bool :=
  match c with
  | OtherBaseException _ => false
  | _ => true
  end.

(** An exception instance: its class and what [str(e)] does, which is to
    return a string or to raise an exception in its turn. *)
#[local] Unset Elimination Schemes.
Inductive exn : Type :=
  | MkExn (cls : exn_class) (str : exn + string).
#[local] Set Elimination Schemes.

Definition exn_cls (e : exn) : exn_class :=
  match e with MkExn cls _ => cls end.

(** [str(e)] *)
Definition py_str (e : exn) : exn + string :=
  match e with MkExn _ str => str end.

(** The exception of class [cls] whose [str] returns [message]. *)
Definition Exn (cls : exn_class) (message : string) : exn :=
  MkExn cls (inr message).

(** ** The estimator, the interpreter's surroundings, the object *)

(** What a method of the estimator returned, as far as [predict] uses it:
    the outcome of calling [.tolist()] on it, a value for an array and an
    exception for an object on which the call fails. *)
Record ndarray : Type := NdArray { tolist : exn + pyval }.

(** The object [joblib.load] returns.  [est_predict_proba] is [None] when
    [hasattr(model, "predict_proba")] is false. *)
Record Estimator : Type := {
  est_predict : pyval -> exn + ndarray;
  est_predict_proba : option (pyval -> exn + ndarray);
}.

(** What [model.py] imports and does not define: storage download, the file
    system, [joblib], the process environment, and [repr] of a path. *)
Record World : Type := {
  Storage_download : string -> exn + string;
  os_listdir : string -> exn + list string;
  os_path_isfile : string -> bool;
  joblib_load : string -> exn + Estimator;
  os_environ : gmap string string;
  repr_path : string -> string;
}.

Definition MODEL_EXTENSIONS : list string := [".joblib"; ".pkl"; ".pickle"].
Definition ENV_PREDICT_PROBA : string := "PREDICT_PROBA".

(** The attributes of a [SKLearnModel] instance.  [_model] is [None] as long
    as the attribute has not been assigned. *)
Record SKLearnModel : Type := {
  name : string;
  model_dir : string;
  ready : bool;
  _model : option Estimator;
}.

(** A call made to the underlying estimator. *)
Inductive Call : Type :=
  | CallPredict (instances : pyval)
  | CallPredictProba (instances : pyval).

(** The mutable state a method runs on: the object and the log of calls to
    the estimator. *)
Record Heap : Type := { self : SKLearnModel; calls : list Call }.

(** ** The monad: state over [Heap], with exceptions *)

Definition M (A : Type) : Type := Heap -> (exn + A) * Heap.

Definition ret {A} (a : A) : M A := fun h => (inr a, h).
Definition raise {A} (e : exn) : M A := fun h => (inl e, h).
Definition bind {A B} (c : M A) (k : A -> M B) : M B :=
  fun h => match c h with
           | (inr a, h') => k a h'
           | (inl e, h') => (inl e, h')
           end.
(** [try: c  except Exception as e: handler e]: an exception raised by [c]
    is handed to the handler when its class derives from [Exception], and
    propagates otherwise; what the handler raises propagates. *)
Definition try_except {A} (c : M A) (handler : exn -> M A) : M A :=
  fun h => match c h with
           | (inr a, h') => (inr a, h')
           | (inl e, h') =>
               if is_Exception (exn_cls e) then handler e h' else (inl e, h')
           end.
Definition lift {A} (r : exn + A) : M A := fun h => (r, h).

Notation "'do' x <- c ; k" := (bind c (fun x => k))
  (at level 60, x name, c at next level, right associativity).
Notation "'do_' c ; k" := (bind c (fun _ => k))
  (at level 60, c at next level, right associativity).

(** [self._model] *)
Definition get_model : M Estimator :=
  fun h => match _model (self h) with
           | Some m => (inr m, h)
           | None => (inl (Exn AttributeError
                       "'SKLearnModel' object has no attribute '_model'"), h)
           end.

(** [self._model = m] *)
Definition set_model (m : Estimator) : M unit :=
  fun h => (inr tt,
            {| self := {| name := name (self h); model_dir := model_dir (self h);
                          ready := ready (self h); _model := Some m |};
               calls := calls h |}).

(** [self.ready = b] *)
Definition set_ready (b : bool) : M unit :=
  fun h => (inr tt,
            {| self := {| name := name (self h); model_dir := model_dir (self h);
                          ready := b; _model := _model (self h) |};
               calls := calls h |}).

Definition get_ready : M bool := fun h => (inr (ready (self h)), h).
Definition get_model_dir : M string := fun h => (inr (model_dir (self h)), h).

(** [m.predict(x)] and [m.predict_proba(x)]: the call is logged, then its
    outcome returned or raised. *)
Definition call_predict (m : Estimator) (x : pyval) : M ndarray :=
  fun h => (est_predict m x,
            {| self := self h; calls := calls h ++ [CallPredict x] |}).

Definition call_predict_proba (m : Estimator) (x : pyval) : M ndarray :=
  fun h => match est_predict_proba m with
           | Some f => (f x, {| self := self h;
                                calls := calls h ++ [CallPredictProba x] |})
           | None => (inl (Exn AttributeError
                       "object has no attribute 'predict_proba'"), h)
           end.

(** ** [SKLearnModel.__init__] *)

Definition __init__ (name0 model_dir0 : string) : Heap :=
  {| self := {| name := name0; model_dir := model_dir0;
                ready := false; _model := None |};
     calls := [] |}.

(** ** [SKLearnModel.load] *)

(** The test of the loop body: a regular file whose name has a model
    extension. *)
Definition is_model_file (w : World) (model_path file : string) : bool :=
  let file_path := os_path_join model_path file in
  os_path_isfile w file_path && endswith file MODEL_EXTENSIONS.

(** The loop over [os.listdir(model_path)], appending to [model_files] the
    path of every entry that passes the test. *)
Fixpoint collect_model_files (w : World) (model_path : string)
    (files : list string) (model_files : list string) : list string :=
  match files with
  | [] => model_files
  | file :: rest =>
      if is_model_file w model_path file
      then collect_model_files w model_path rest
             (model_files ++ [os_path_join model_path file])
      else collect_model_files w model_path rest model_files
  end.

(** [repr] of a list of paths, as the f-string formats it. *)
Definition repr_paths (w : World) (ps : list string) : string :=
  "[" ++ String.concat ", " (map (repr_path w) ps) ++ "]".

Definition more_than_one_msg (w : World) (model_files : list string) : string :=
  "More than one model file is detected, " ++
  "Only one is allowed within model_dir: " ++ repr_paths w model_files.

Definition load (w : World) : M bool :=
  do dir <- get_model_dir;
  do model_path <- lift (Storage_download w dir);
  do files <- lift (os_listdir w model_path);
  let model_files := collect_model_files w model_path files [] in
  match model_files with
  | [] => raise (Exn ModelMissingError model_path)
  | [file0] =>
      do m <- lift (joblib_load w file0);
      do_ set_model m;
      do_ set_ready true;
      get_ready
  | _ :: _ :: _ =>
      raise (Exn RuntimeError (more_than_one_msg w model_files))
  end.

(** ** [SKLearnModel.predict] *)

(** [payload[key]] *)
Definition dict_getitem (payload : gmap string pyval) (key : string) : M pyval :=
  match payload !! key with
  | Some v => ret v
  | None => raise (Exn KeyError ("'" ++ key ++ "'"))
  end.

(** [os.environ.get(key, default)] *)
Definition environ_get (w : World) (key default : string) : string :=
  match os_environ w !! key with
  | Some v => v
  | None => default
  end.

(** [os.environ.get(ENV_PREDICT_PROBA, "false").lower() == "true"] *)
Definition env_predict_proba (w : World) : bool :=
  String.eqb (str_lower (environ_get w ENV_PREDICT_PROBA "false")) "true".

(** The condition of the [if]: the environment test, then, only when it
    holds, [hasattr(self._model, "predict_proba")]. *)
Definition use_predict_proba (w : World) : M bool :=
  if env_predict_proba w
  then do m <- get_model; ret (bool_decide (is_Some (est_predict_proba m)))
  else ret false.

Definition predict (w : World) (payload : gmap string pyval)
    : M (gmap string pyval) :=
  do instances <- dict_getitem payload "instances";
  try_except
    (do proba <- use_predict_proba w;
     do result <-
       (if proba
        then do m <- get_model;
             do a <- call_predict_proba m instances; lift (tolist a)
        else do m <- get_model;
             do a <- call_predict m instances; lift (tolist a));
     ret ({[ "predictions" := result ]} : gmap string pyval))
    (fun e => do message <- lift (py_str e);
              raise (Exn InferenceError message)).

(** ** Notions the statements about [load] and [predict] use *)

(** The entries of a directory listing that are model files. *)
Definition model_entries (w : World) (model_path : string)
    (files : list string) : list string :=
  List.filter (is_model_file w model_path) files.

(** What leaves the [try] statement of [predict] when [e] is raised inside
    it: [e] itself when its class does not derive from [Exception];
    otherwise [InferenceError] with the string form of [e], or what [str(e)]
    raised. *)
Definition reraised (e : exn) : exn :=
  if is_Exception (exn_cls e)
  then match py_str e with
       | inr message => Exn InferenceError message
       | inl e' => e'
       end
  else e.

(** What [predict] makes of the outcome of the estimator call: the response
    envelope with the list form of what was returned, or what leaves the
    [try] statement when the call or [.tolist()] raised. *)
Definition envelope_of (r : exn + ndarray) : exn + gmap string pyval :=
  match r with
  | inr a =>
      match tolist a with
      | inr result => inr {[ "predictions" := result ]}
      | inl e => inl (reraised e)
      end
  | inl e => inl (reraised e)
  end.

(** The method of the estimator that [predict] calls: [predict_proba] when
    the environment asks for it and the estimator has it, [predict]
    otherwise. *)
Definition selected_method (w : World) (m : Estimator)
    : pyval -> exn + ndarray :=
  if env_predict_proba w
  then match est_predict_proba m with
       | Some f => f
       | None => est_predict m
       end
  else est_predict m.

Definition logged (h : Heap) (c : Call) : Heap :=
  {| self := self h; calls := calls h ++ [c] |}.

Definition is_ascii_letter (a : ascii) : bool :=
  let n := nat_of_ascii a in
  ((65 <=? n)%nat && (n <=? 90)%nat) || ((97 <=? n)%nat && (n <=? 122)%nat).

(** Two characters that are equal, or the two cases of one ASCII letter. *)
Definition same_letter (a b : ascii) : bool :=
  Ascii.eqb a b ||
  (is_ascii_letter a && is_ascii_letter b &&
   ((nat_of_ascii a =? nat_of_ascii b + 32)%nat ||
    (nat_of_ascii b =? nat_of_ascii a + 32)%nat)).

(** Equality of strings up to the case of ASCII letters. *)
Fixpoint eq_ignoring_case (s t : string) : bool :=
  match s, t with
  | EmptyString, EmptyString => true
  | String a s', String b t' => same_letter a b && eq_ignoring_case s' t'
  | _, _ => false
  end.

(** An estimator method that maps [f] over the rows it is given. *)
Definition rowwise (g : pyval -> exn + ndarray) (f : pyval -> pyval) : Prop :=
  forall rows, g (PList rows) = inr (NdArray (inr (PList (f <$> rows)))).

(** ** Concrete surroundings used to run the methods *)

(** A row-wise classifier: the class of a row is its first feature. *)
Definition first_feature (row : pyval) : pyval :=
  match row with
  | PList (v :: _) => v
  | _ => PNone
  end.

Definition rowwise_fn (f : pyval -> pyval) (x : pyval) : exn + ndarray :=
  match x with
  | PList rows => inr (NdArray (inr (PList (f <$> rows))))
  | _ => inl (Exn (OtherException "ValueError") "Expected 2D array")
  end.

Definition est_rows : Estimator :=
  {| est_predict := rowwise_fn first_feature;
     est_predict_proba := Some (rowwise_fn (fun row => PList [row])) |}.

(** An estimator without [predict_proba] whose [predict] always raises. *)
Definition est_failing : Estimator :=
  {| est_predict := fun _ => inl (Exn (OtherException "ValueError") "bad input shape");
     est_predict_proba := None |}.

Definition posix_repr (p : string) : string := "PosixPath('" ++ p ++ "')".

(** A model directory holding the given entries, all of them regular files,
    in which every artifact deserialises to [est_rows]. *)
Definition world_of (entries : list string) (env : gmap string string) : World :=
  {| Storage_download := fun _ => inr "/mnt/models";
     os_listdir := fun _ => inr entries;
     os_path_isfile := fun _ => true;
     joblib_load := fun _ => inr est_rows;
     os_environ := env;
     repr_path := posix_repr |}.


Definition iris_payload : gmap string pyval :=
  {[ "instances" := PList [PList [PInt 6; PInt 2]; PList [PInt 5; PInt 1]] ]}.

Definition loaded (m : Estimator) : Heap :=
  {| self := {| name := "sklearn-iris"; model_dir := "gs://bucket/model";
                ready := true; _model := Some m |};
     calls := [] |}.

End SKLearn.

(* ===================================================================== *)
(** * Part II: the batching engine                                        *)
(* ===================================================================== *)

Module Batcher.

(** Modelled from the spec: the batching engine itself (Batcher Core, Batch
    and Dispatcher, spec sections 3 to 5) is not among the sources; only its
    end-to-end test [test/e2e/batcher/test_raw_batcher.py] is.  Admission and
    the close decision are one serialised step, as section 5 requires, so a
    run of the engine is a sequence of events.  Batch identifiers come from a
    monotonic counter, and a batch is opened by the first item that needs it. *)

Section Engine.

Context {Payload Result : Type}.

(** Modelled from the spec: the error taxonomy of section 7 as far as the
    engine raises it. *)
Inductive EngineError : Type :=
  | EngineClosed
  | InferenceError (description : string)
  | BatchResultMismatch.

(** Modelled from the spec: the predictor capability of section 6, an ordered
    collection of instances to an ordered collection of results or an error
    carrying its description. *)
Definition Predictor : Type := list Payload -> string + list Result.

(** Modelled from the spec: the configuration of section 3; [max_batch_size]
    is a positive integer, [max_latency] a duration in milliseconds. *)
Record Config : Type := { max_batch_size : positive; max_latency : N }.

(** Modelled from the spec: Item (section 3).  The result sink is named by a
    number, fresh for every item. *)
Record Item : Type := {
  payload : Payload;
  resultSink : nat;
  enqueuedAt : N;
}.

(** Modelled from the spec: the lifecycle states of a Batch (section 3). *)
Inductive BatchState : Type := OPEN | CLOSING | DISPATCHED | COMPLETED | FAILED.

(** Modelled from the spec: Batch (section 3). *)
Record Batch : Type := {
  id : nat;
  items : list Item;
  state : BatchState;
  deadline : N;
}.

(** Modelled from the spec: the terminal result of an item, a success with
    the predictor's result or a failure (section 3). *)
Inductive Outcome : Type :=
  | Success (r : Result)
  | Failure (err : EngineError).

(** Modelled from the spec: one resolution of an item's result sink, tagged
    with the batch identifier (section 4.2). *)
Record Delivery : Type := {
  d_sink : nat;
  d_batch : nat;
  d_outcome : Outcome;
}.

(** Modelled from the spec: the state of one engine instance.  [current] is
    the active-batch slot; [finished] holds the batches already dispatched,
    oldest first; [delivered] is the log of sink resolutions and
    [downstream_calls] the log of predictor invocations. *)
Record Engine : Type := {
  next_id : nat;
  next_sink : nat;
  current : option Batch;
  finished : list Batch;
  delivered : list Delivery;
  downstream_calls : list (nat * list Payload);
  shutting_down : bool;
}.

(** Modelled from the spec: a freshly constructed engine instance, with no
    batch open. *)
Definition new_engine : Engine :=
  {| next_id := 0; next_sink := 0; current := None; finished := [];
     delivered := []; downstream_calls := []; shutting_down := false |}.

(** Modelled from the spec: a lifecycle transition of a batch. *)
Definition set_state (b : Batch) (st : BatchState) : Batch :=
  {| id := id b; items := items b; state := st; deadline := deadline b |}.

(** Modelled from the spec: items are kept in arrival order (section 3). *)
Definition add_item (b : Batch) (it : Item) : Batch :=
  {| id := id b; items := items b ++ [it]; state := state b;
     deadline := deadline b |}.

(** Modelled from the spec: a batch opened at [now] takes the next identifier
    and the deadline [now + max_latency] (section 3). *)
Definition open_batch (cfg : Config) (e : Engine) (now : N) : Batch :=
  {| id := next_id e; items := []; state := OPEN;
     deadline := (now + max_latency cfg)%N |}.

(** Modelled from the spec: the single atomic transition OPEN to CLOSING
    (section 4.1); any other state makes the attempt a no-op. *)
Definition try_close (b : Batch) : option Batch :=
  match state b with
  | OPEN => Some (set_state b CLOSING)
  | _ => None
  end.

(** Modelled from the spec: resolving the sink of one item of a batch, tagged
    with the batch's identifier (section 4.2). *)
Definition deliver_to (b : Batch) (o : Outcome) (it : Item) : Delivery :=
  {| d_sink := resultSink it; d_batch := id b; d_outcome := o |}.

(** Modelled from the spec: Dispatcher (section 4.2).  One downstream call
    with the payloads in order; on success result [i] goes to item [i]; on a
    length mismatch every item fails with [BatchResultMismatch]; on a
    predictor failure every item fails with [InferenceError] carrying the
    description. *)
Definition dispatch (predictor : Predictor) (b : Batch)
    : BatchState * list Delivery :=
  match predictor (payload <$> items b) with
  | inr results =>
      if decide (length results = length (items b))
      then (COMPLETED,
            zip_with (fun it r => deliver_to b (Success r) it) (items b) results)
      else (FAILED, deliver_to b (Failure BatchResultMismatch) <$> items b)
  | inl description =>
      (FAILED, deliver_to b (Failure (InferenceError description)) <$> items b)
  end.

(** Modelled from the spec: closing the batch held in the slot (section 4.1).
    The slot is freed first, then the batch is handed to the dispatcher; an
    empty batch is never dispatched. *)
Definition close_current (predictor : Predictor) (e : Engine) (b : Batch)
    : Engine :=
  match try_close b with
  | None => e
  | Some closing =>
      match items closing with
      | [] => e
      | _ :: _ =>
          let dispatched := set_state closing DISPATCHED in
          let '(final, out) := dispatch predictor dispatched in
          {| next_id := next_id e; next_sink := next_sink e;
             current := None;
             finished := finished e ++ [set_state dispatched final];
             delivered := delivered e ++ out;
             downstream_calls :=
               downstream_calls e ++ [(id b, payload <$> items b)];
             shutting_down := shutting_down e |}
      end
  end.

(** Modelled from the spec: what [enqueue] hands back, the batch joined and
    the sink to await (section 4.1). *)
Record BatchHandle : Type := { h_batch : nat; h_sink : nat }.

(** Modelled from the spec: [enqueue] (section 4.1).  Fails with
    [EngineClosed] when shutting down; otherwise opens a batch if the slot is
    empty, appends the item, and closes the batch in the same step when the
    append brings it to [max_batch_size]. *)
Definition enqueue (cfg : Config) (predictor : Predictor) (e : Engine)
    (now : N) (p : Payload) : Engine * (EngineError + BatchHandle) :=
  if shutting_down e then (e, inl EngineClosed)
  else
    let '(b, nid) :=
      match current e with
      | Some b => (b, next_id e)
      | None => (open_batch cfg e now, S (next_id e))
      end in
    let it := {| payload := p; resultSink := next_sink e; enqueuedAt := now |} in
    let b' := add_item b it in
    let e' := {| next_id := nid; next_sink := S (next_sink e);
                 current := Some b'; finished := finished e;
                 delivered := delivered e;
                 downstream_calls := downstream_calls e;
                 shutting_down := shutting_down e |} in
    let handle := {| h_batch := id b'; h_sink := resultSink it |} in
    if decide (length (items b') = Pos.to_nat (max_batch_size cfg))
    then (close_current predictor e' b', inr handle)
    else (e', inr handle).

(** Modelled from the spec: the deadline timer (section 4.1).  When the clock
    reaches [now] and the open batch's deadline has elapsed, the batch is
    force-closed with the items it holds. *)
Definition on_timer (predictor : Predictor) (e : Engine) (now : N) : Engine :=
  match current e with
  | Some b =>
      if decide (deadline b ≤ now)%N then close_current predictor e b else e
  | None => e
  end.

(** Modelled from the spec: the engine starts shutting down; later
    submissions are rejected (sections 4.1 and 7). *)
Definition shutdown (e : Engine) : Engine :=
  {| next_id := next_id e; next_sink := next_sink e; current := current e;
     finished := finished e; delivered := delivered e;
     downstream_calls := downstream_calls e; shutting_down := true |}.

(** Modelled from the spec: the events that reach the accumulation point, in
    the order it serialises them (section 5). *)
Inductive Event : Type :=
  | Submit (now : N) (p : Payload)
  | Tick (now : N)
  | Shutdown.

(** Modelled from the spec: the engine's reaction to one event. *)
Definition step (cfg : Config) (predictor : Predictor) (e : Engine)
    (ev : Event) : Engine :=
  match ev with
  | Submit now p => fst (enqueue cfg predictor e now p)
  | Tick now => on_timer predictor e now
  | Shutdown => shutdown e
  end.

(** Modelled from the spec: a run of the engine, from construction. *)
Definition run (cfg : Config) (predictor : Predictor) (evs : list Event)
    : Engine :=
  fold_left (step cfg predictor) evs new_engine.

(** Modelled from the spec: what [enqueue] hands back to each submitter
    along a sequence of events, in submission order (section 4.1). *)
Fixpoint handles (cfg : Config) (predictor : Predictor) (e : Engine)
    (evs : list Event) : list (EngineError + BatchHandle) :=
  match evs with
  | [] => []
  | Submit now p :: rest =>
      (enqueue cfg predictor e now p).2
      :: handles cfg predictor (enqueue cfg predictor e now p).1 rest
  | ev :: rest => handles cfg predictor (step cfg predictor e ev) rest
  end.

(** Every batch the engine has opened so far, oldest first. *)
Definition all_batches (e : Engine) : list Batch :=
  finished e ++ option_list (current e).

(** The sink resolutions that carry batch identifier [bid]. *)
Definition deliveries_of (e : Engine) (bid : nat) : list Delivery :=
  filter (fun d => d_batch d = bid) (delivered e).

(** The sink resolutions of sink [s]. *)
Definition resolutions_of (e : Engine) (s : nat) : list Delivery :=
  filter (fun d => d_sink d = s) (delivered e).

Definition is_success (o : Outcome) : bool :=
  match o with Success _ => true | Failure _ => false end.

(** ** Notions the statements about the engine use *)

(** The sinks of the items of a batch, in order. *)
Definition sinks_of (b : Batch) : list nat := resultSink <$> items b.

(** The predictor invocation a batch gives rise to. *)
Definition call_of (b : Batch) : nat * list Payload :=
  (id b, payload <$> items b).

(** The sink resolutions the dispatcher produces for a batch. *)
Definition fan_out (predictor : Predictor) (b : Batch) : list Delivery :=
  (dispatch predictor b).2.

(** The invariant of the engine: identifiers and sinks are handed out in
    sequence, the logs are those of the dispatched batches, the batch in the
    slot is open, non-empty and not full, and a dispatched batch is non-empty,
    within the size bound and in the state its dispatch ended in. *)
Record Inv (cfg : Config) (predictor : Predictor) (e : Engine) : Prop := {
  inv_ids : id <$> all_batches e = seq 0 (next_id e);
  inv_sinks : concat (sinks_of <$> all_batches e) = seq 0 (next_sink e);
  inv_delivered : delivered e = concat (fan_out predictor <$> finished e);
  inv_calls : downstream_calls e = call_of <$> finished e;
  inv_current : forall b, current e = Some b ->
    state b = OPEN /\ items b <> [] /\
    length (items b) < Pos.to_nat (max_batch_size cfg);
  inv_finished : Forall (fun b =>
    items b <> [] /\ length (items b) <= Pos.to_nat (max_batch_size cfg) /\
    state b = (dispatch predictor b).1) (finished e);
}.

(** An event that reaches the engine before the instant [d]; a shutdown is
    not one. *)
Definition before_deadline (d : N) (ev : Event) : Prop :=
  match ev with
  | Submit now _ => (now < d)%N
  | Tick now => (now < d)%N
  | Shutdown => False
  end.

(** The payloads submitted by a sequence of events, in order. *)
Fixpoint submitted (evs : list Event) : list Payload :=
  match evs with
  | [] => []
  | Submit _ p :: rest => p :: submitted rest
  | _ :: rest => submitted rest
  end.

End Engine.

Arguments EngineError : clear implicits.
Arguments Predictor : clear implicits.
Arguments Item : clear implicits.
Arguments Batch : clear implicits.
Arguments Outcome : clear implicits.
Arguments Delivery : clear implicits.
Arguments Engine : clear implicits.
Arguments Event : clear implicits.

(** ** The end-to-end test and small runs *)

(** The batcher settings of [test_batcher_raw] in
    [test/e2e/batcher/test_raw_batcher.py]. *)
Definition test_batcher_config : Config :=
  {| max_batch_size := 32; max_latency := 5000 |}.

(** The 31 submissions that follow the first one of the test, one per
    millisecond. *)
Definition test_submissions : list (Event nat) :=
  (fun i => Submit (N.of_nat i) i) <$> seq 1 31.

(** A predictor that answers every instance with itself. *)
Definition echo : Predictor nat nat := fun xs => inr xs.

(** A predictor that fails on every call. *)
Definition failing : Predictor nat nat := fun _ => inl "model exploded".

Definition small_config : Config :=
  {| max_batch_size := 2; max_latency := 100 |}.

(** Three submissions, then the clock passes the deadline of the second
    batch. *)
Definition small_events : list (Event nat) :=
  [Submit 0 10; Submit 1 11; Submit 2 12; Tick 200].

Definition small_batch0 : Batch nat :=
  {| id := 0;
     items := [{| payload := 10; resultSink := 0; enqueuedAt := 0 |};
               {| payload := 11; resultSink := 1; enqueuedAt := 1 |}];
     state := COMPLETED; deadline := 100 |}.

Definition small_batch1 : Batch nat :=
  {| id := 1;
     items := [{| payload := 12; resultSink := 2; enqueuedAt := 2 |}];
     state := COMPLETED; deadline := 102 |}.

Definition failed_batch0 : Batch nat :=
  {| id := 0;
     items := [{| payload := 10; resultSink := 0; enqueuedAt := 0 |};
               {| payload := 11; resultSink := 1; enqueuedAt := 1 |}];
     state := FAILED; deadline := 100 |}.

End Batcher.

(* ===================================================================== *)
(** * Further surroundings of [model.py], and the checks of the test      *)
(* ===================================================================== *)

Module SKLearnWorlds.
Import SKLearn.

(** The surroundings [w] with the model directory listing as [files]. *)
Definition with_listing (w : World) (files : list string) : World :=
  {| Storage_download := Storage_download w;
     os_listdir := fun _ => inr files;
     os_path_isfile := os_path_isfile w;
     joblib_load := joblib_load w;
     os_environ := os_environ w;
     repr_path := repr_path w |}.

(** The surroundings [w] with [joblib.load] behaving as [j]. *)
Definition with_joblib (w : World) (j : string -> exn + Estimator) : World :=
  {| Storage_download := Storage_download w;
     os_listdir := os_listdir w;
     os_path_isfile := os_path_isfile w;
     joblib_load := j;
     os_environ := os_environ w;
     repr_path := repr_path w |}.

(** Surroundings in which the storage cannot be reached. *)
Definition world_offline : World :=
  {| Storage_download := fun _ =>
       inl (Exn (OtherException "ConnectionError") "storage unreachable");
     os_listdir := fun _ => inr [];
     os_path_isfile := fun _ => true;
     joblib_load := fun _ => inr est_rows;
     os_environ := ∅;
     repr_path := posix_repr |}.

(** Surroundings in which the downloaded path cannot be listed. *)
Definition world_unlistable : World :=
  {| Storage_download := fun _ => inr "/mnt/models";
     os_listdir := fun _ =>
       inl (Exn (OtherException "NotADirectoryError") "/mnt/models");
     os_path_isfile := fun _ => true;
     joblib_load := fun _ => inr est_rows;
     os_environ := ∅;
     repr_path := posix_repr |}.

(** [joblib.load] that reads model files only and fails on anything else. *)
Definition joblib_models_only (path : string) : exn + Estimator :=
  if endswith path MODEL_EXTENSIONS then inr est_rows
  else inl (Exn (OtherException "ValueError") "not a model artifact").

(** An estimator interrupted in the middle of a prediction. *)
Definition est_interrupted : Estimator :=
  {| est_predict := fun _ =>
       inl (MkExn (OtherBaseException "KeyboardInterrupt") (inr EmptyString));
     est_predict_proba := None |}.

(** An estimator whose [predict] returns a plain list, which has no
    [tolist] method. *)
Definition est_plain_list : Estimator :=
  {| est_predict := fun _ =>
       inr (NdArray (inl (Exn AttributeError
                            "'list' object has no attribute 'tolist'")));
     est_predict_proba := None |}.

(** A method call on the object, in the surroundings it is made in. *)
Inductive Method : Type :=
  | MLoad (w : World)
  | MPredict (w : World) (payload : gmap string pyval).

(** The object after one call, whether the call returned or raised. *)
Definition invoke (h : Heap) (c : Method) : Heap :=
  match c with
  | MLoad w => (load w h).2
  | MPredict w payload => (predict w payload h).2
  end.

(** The object after a sequence of calls. *)
Definition session (cs : list Method) (h : Heap) : Heap :=
  fold_left invoke cs h.

End SKLearnWorlds.

Module TestRawBatcher.

(** What [test_batcher_raw] reads off one response: [result["batchId"]] and
    [result["response_code"]]. *)
Record Response : Type := { batchId : string; response_code : Z }.

(** The loop over [future_res]: both lists grow by one entry per response,
    in order. *)
Definition collect (future_res : list Response) : list string * list Z :=
  fold_left
    (fun '(results, response_codes) result =>
       ((results ++ [batchId result])%list,
        (response_codes ++ [response_code result])%list))
    future_res ([], []).

(** [len(set(results)) == 1] *)
Definition same_batch_id (results : list string) : bool :=
  bool_decide (size (list_to_set results : gset string) = 1).

(** [set(response_codes) == {200}] *)
Definition all_codes_200 (response_codes : list Z) : bool :=
  bool_decide ((list_to_set response_codes : gset Z) = {[ 200%Z ]}).

(** The two assertions that end the test; [true] when neither fails. *)
Definition assertions_pass (future_res : list Response) : bool :=
  let '(results, response_codes) := collect future_res in
  same_batch_id results && all_codes_200 response_codes.

End TestRawBatcher.

(* ===================================================================== *)
(** * Part I, verified: [load] and [predict]                              *)
(* ===================================================================== *)

Module SKLearnFacts.
Import SKLearn.

(** *** Strings *)

Lemma endswith1_nil suf : endswith1 EmptyString suf = String.eqb EmptyString suf.
Proof. destruct suf; reflexivity. Qed.

Lemma endswith1_cons c s suf :
  endswith1 (String c s) suf = String.eqb (String c s) suf || endswith1 s suf.
Proof.
  change (endswith1 (String c s) suf)
    with (if String.eqb (String c s) suf then true else endswith1 s suf).
  destruct (String.eqb (String c s) suf); reflexivity.
Qed.

Lemma endswith1_suffix s suf :
  endswith1 s suf = true <-> exists stem, s = stem ++ suf.
Proof.
  induction s as [|c s IH].
  - rewrite endswith1_nil, String.eqb_eq. split.
    + intros <-. exists EmptyString. reflexivity.
    + intros [stem Hs]. destruct stem; simpl in Hs; [exact Hs | discriminate Hs].
  - rewrite endswith1_cons, orb_true_iff, String.eqb_eq, IH. split.
    + intros [<-|[stem ->]].
      * exists EmptyString. reflexivity.
      * exists (String c stem). reflexivity.
    + intros [stem Hs]. destruct stem as [|c' stem]; simpl in Hs.
      * left. exact Hs.
      * right. injection Hs as _ ->. exists stem. reflexivity.
Qed.

Lemma is_model_file_spec w model_path file :
  is_model_file w model_path file = true <->
  os_path_isfile w (os_path_join model_path file) = true /\
  exists stem, file = stem ++ ".joblib" \/ file = stem ++ ".pkl"
               \/ file = stem ++ ".pickle".
Proof.
  unfold is_model_file, endswith, MODEL_EXTENSIONS. simpl.
  rewrite andb_true_iff, !orb_true_iff, !endswith1_suffix.
  split.
  - intros [Hf [[st ->]|[[st ->]|[[st ->]|Hff]]]]; try discriminate;
      (split; [exact Hf | exists st; tauto]).
  - intros [Hf [st [->|[->| ->]]]]; (split; [exact Hf|]); eauto 6.
Qed.

Ltac by_ascii_cases a :=
  destruct a as [[] [] [] [] [] [] [] []]; vm_compute;
  split; intros; solve [reflexivity | discriminate].

Lemma lower_is_t a : ascii_lower a = "t"%char <-> same_letter a "t" = true.
Proof. by_ascii_cases a. Qed.
Lemma lower_is_r a : ascii_lower a = "r"%char <-> same_letter a "r" = true.
Proof. by_ascii_cases a. Qed.
Lemma lower_is_u a : ascii_lower a = "u"%char <-> same_letter a "u" = true.
Proof. by_ascii_cases a. Qed.
Lemma lower_is_e a : ascii_lower a = "e"%char <-> same_letter a "e" = true.
Proof. by_ascii_cases a. Qed.

Lemma lower_is_true s :
  String.eqb (str_lower s) "true" = true <-> eq_ignoring_case s "true" = true.
Proof.
  rewrite String.eqb_eq.
  destruct s as [|a [|b [|c [|d [|x s]]]]]; simpl;
    try (split; intros; discriminate).
  - rewrite andb_false_r. split; intros; discriminate.
  - rewrite !andb_false_r. split; intros; discriminate.
  - rewrite !andb_false_r. split; intros; discriminate.
  - rewrite andb_true_r, !andb_true_iff.
    rewrite <- lower_is_t, <- lower_is_r, <- lower_is_u, <- lower_is_e.
    split.
    + intros H. injection H as -> -> -> ->. tauto.
    + intros (-> & -> & -> & ->). reflexivity.
  - rewrite !andb_false_r. split; intros; discriminate.
Qed.


(** *** [load] *)

Lemma collect_model_files_filter w model_path files acc :
  collect_model_files w model_path files acc =
  (acc ++ (os_path_join model_path <$> model_entries w model_path files))%list.
Proof.
  revert acc. induction files as [|file rest IH]; intros acc; simpl.
  - by rewrite app_nil_r.
  - unfold model_entries in *. simpl.
    destruct (is_model_file w model_path file); rewrite IH; simpl.
    + by rewrite <- app_assoc.
    + done.
Qed.

(** [load] computed, once the download and the listing have returned. *)
Lemma load_unfold w h model_path files :
  Storage_download w (model_dir (self h)) = inr model_path ->
  os_listdir w model_path = inr files ->
  load w h =
  match model_entries w model_path files with
  | [] => (inl (Exn ModelMissingError model_path), h)
  | [file] =>
      match joblib_load w (os_path_join model_path file) with
      | inr m =>
          (inr true,
           {| self := {| name := name (self h); model_dir := model_dir (self h);
                         ready := true; _model := Some m |};
              calls := calls h |})
      | inl e => (inl e, h)
      end
  | _ :: _ :: _ =>
      (inl (Exn RuntimeError
              (more_than_one_msg w
                 (os_path_join model_path <$> model_entries w model_path files))),
       h)
  end.
Proof.
  intros Hd Hl. unfold load, bind, lift, get_model_dir. rewrite Hd, Hl.
  rewrite collect_model_files_filter. simpl.
  destruct (model_entries w model_path files) as [|f [|g l]]; simpl;
    unfold raise; try done.
  all: destruct (joblib_load w (os_path_join model_path f)); done.
Qed.

(** A failing [load] leaves the heap as it found it, whatever fails. *)
Lemma load_raise_unchanged w h e :
  (load w h).1 = inl e -> (load w h).2 = h.
Proof.
  unfold load, bind, lift, get_model_dir, raise.
  destruct (Storage_download w (model_dir (self h))) as [e1|p]; [done|].
  destruct (os_listdir w p) as [e2|files]; [done|].
  destruct (collect_model_files w p files []) as [|f [|g l]]; try done.
  destruct (joblib_load w f); simpl; [done | discriminate].
Qed.

(** [load] returns nothing but [True], and then the object is ready and
    holds a model. *)
Lemma load_return_ready w h b :
  (load w h).1 = inr b ->
  b = true /\ ready (self (load w h).2) = true /\
  is_Some (_model (self (load w h).2)).
Proof.
  unfold load, bind, lift, get_model_dir, raise.
  destruct (Storage_download w (model_dir (self h))) as [e1|p]; [done|].
  destruct (os_listdir w p) as [e2|files]; [done|].
  destruct (collect_model_files w p files []) as [|f [|g l]]; try done.
  destruct (joblib_load w f); simpl; [done|].
  intros [= <-]. eauto.
Qed.

(** *** [predict] *)

Lemma predict_unfold w payload h x m :
  payload !! "instances" = Some x ->
  _model (self h) = Some m ->
  predict w payload h =
  if env_predict_proba w
  then match est_predict_proba m with
       | Some f => (envelope_of (f x), logged h (CallPredictProba x))
       | None => (envelope_of (est_predict m x), logged h (CallPredict x))
       end
  else (envelope_of (est_predict m x), logged h (CallPredict x)).
Proof.
  intros Hx Hm.
  unfold predict, use_predict_proba, dict_getitem, try_except, get_model,
    call_predict, call_predict_proba, ret, raise, logged, bind.
  rewrite Hx. simpl.
  destruct (env_predict_proba w); simpl; rewrite ?Hm; simpl.
  - destruct (est_predict_proba m) as [f|] eqn:Hp; simpl; rewrite ?Hm; simpl.
    + rewrite Hp. unfold envelope_of, reraised, lift.
      destruct (f x) as [[c [e'|s]]|[[[c [e'|s]]|v]]]; try destruct c; done.
    + unfold envelope_of, reraised, lift.
      destruct (est_predict m x) as [[c [e'|s]]|[[[c [e'|s]]|v]]];
        try destruct c; done.
  - unfold envelope_of, reraised, lift.
    destruct (est_predict m x) as [[c [e'|s]]|[[[c [e'|s]]|v]]];
      try destruct c; done.
Qed.

(** The result of [predict] is what the envelope makes of the method the
    surroundings and the estimator select. *)
Lemma predict_selected w payload h x m :
  payload !! "instances" = Some x ->
  _model (self h) = Some m ->
  (predict w payload h).1 = envelope_of (selected_method w m x).
Proof.
  intros Hx Hm. rewrite (predict_unfold w payload h x m Hx Hm).
  unfold selected_method.
  by destruct (env_predict_proba w); [destruct (est_predict_proba m)|].
Qed.

Lemma predict_unloaded w payload h x :
  payload !! "instances" = Some x ->
  _model (self h) = None ->
  predict w payload h =
  (inl (Exn InferenceError "'SKLearnModel' object has no attribute '_model'"), h).
Proof.
  intros Hx Hm.
  unfold predict, use_predict_proba, dict_getitem, try_except, get_model,
    ret, raise, bind.
  rewrite Hx. simpl.
  destruct (env_predict_proba w); simpl; rewrite ?Hm; simpl; by rewrite ?Hm.
Qed.

Lemma predict_no_instances w payload h :
  payload !! "instances" = None ->
  predict w payload h = (inl (Exn KeyError "'instances'"), h).
Proof.
  intros Hx. unfold predict, dict_getitem, bind, raise. by rewrite Hx.
Qed.

Lemma envelope_raises r e :
  envelope_of r = inl e ->
  exists e0, e = reraised e0 /\
    (r = inl e0 \/ exists a, r = inr a /\ tolist a = inl e0).
Proof.
  destruct r as [e0|a]; simpl.
  - intros [= <-]. exists e0. auto.
  - destruct (tolist a) as [e0|v] eqn:Ht; [|done]. intros [= <-].
    exists e0. split; [done|]. right. by exists a.
Qed.

Lemma envelope_returns r env :
  envelope_of r = inr env ->
  exists a v, r = inr a /\ tolist a = inr v /\
              env = {[ "predictions" := v ]}.
Proof.
  destruct r as [e0|a]; simpl; [done|].
  destruct (tolist a) as [e0|v] eqn:Ht; [done|]. intros [= <-].
  by exists a, v.
Qed.




Lemma env_predict_proba_spec w :
  env_predict_proba w = true <->
  exists v, os_environ w !! ENV_PREDICT_PROBA = Some v /\
            eq_ignoring_case v "true" = true.
Proof.
  unfold env_predict_proba, environ_get.
  destruct (os_environ w !! ENV_PREDICT_PROBA) as [v|].
  - rewrite lower_is_true. split; [eauto|]. by intros (v' & [= <-] & Hv).
  - split; [done|]. by intros (v' & ? & _).
Qed.

(** ** The claims about [load] *)




(** C9: a [load] that raises leaves the object as it was; on a freshly
    constructed object [ready] is still [False] and no model is assigned; and
    [ready] goes from [False] to [True] only in a [load] that returned, with a
    model assigned. *)
Theorem load_failure_atomic w h :
  (forall e, (load w h).1 = inl e -> (load w h).2 = h)
  /\ (forall name0 dir0 e, (load w (__init__ name0 dir0)).1 = inl e ->
      ready (self (load w (__init__ name0 dir0)).2) = false /\
      _model (self (load w (__init__ name0 dir0)).2) = None)
  /\ (ready (self h) = false -> ready (self (load w h).2) = true ->
      (load w h).1 = inr true /\ is_Some (_model (self (load w h).2))).
Proof.
  split; [|split].
  - apply load_raise_unchanged.
  - intros name0 dir0 e He. by rewrite (load_raise_unchanged _ _ _ He).
  - intros Hf Ht. destruct (load w h).1 as [e|b] eqn:Hr.
    + rewrite (load_raise_unchanged _ _ _ Hr) in Ht. congruence.
    + destruct (load_return_ready _ _ _ Hr) as (-> & _ & Hm). done.
Qed.

Lemma load_failure_atomic_witness :
  (load (world_of ["notes.txt"] ∅) (__init__ "sklearn-iris" "gs://bucket/model")).2
  = __init__ "sklearn-iris" "gs://bucket/model".
Proof.
  apply (proj1 (load_failure_atomic (world_of ["notes.txt"] ∅)
                  (__init__ "sklearn-iris" "gs://bucket/model"))
           (Exn ModelMissingError "/mnt/models")).
  reflexivity.
Defined.


(** ** The claims about [predict] *)

(** C4, as stated, fails: an estimator interrupted in its [predict] raises
    [KeyboardInterrupt], which does not derive from [Exception]; [predict]
    lets it through as it is, not as an [InferenceError]. *)
Lemma predict_passes_keyboard_interrupt :
  est_predict SKLearnWorlds.est_interrupted
    (PList [PList [PInt 6; PInt 2]; PList [PInt 5; PInt 1]])
  = inl (MkExn (OtherBaseException "KeyboardInterrupt") (inr EmptyString))
  /\ (predict (world_of [] ∅) iris_payload
        (loaded SKLearnWorlds.est_interrupted)).1
     = inl (MkExn (OtherBaseException "KeyboardInterrupt") (inr EmptyString)).
Proof. split; reflexivity. Qed.

(** C4, amended: with the instances extracted and a model loaded, whenever
    the method of the estimator that [predict] calls ([predict_proba] when
    the environment asks for it and the estimator has it, [predict]
    otherwise) raises [e]: if the class of [e] derives from [Exception],
    [predict] raises [InferenceError(str(e))], or what [str(e)] raised when
    it raises; if it does not, [predict] raises [e] itself. *)
Theorem predict_wraps_downstream_failure w payload h x m e :
  payload !! "instances" = Some x ->
  _model (self h) = Some m ->
  (env_predict_proba w = true /\
     exists f, est_predict_proba m = Some f /\ f x = inl e) \/
  ((env_predict_proba w = false \/ est_predict_proba m = None) /\
     est_predict m x = inl e) ->
  (is_Exception (exn_cls e) = true ->
     forall message, py_str e = inr message ->
       (predict w payload h).1 = inl (Exn InferenceError message))
  /\ (is_Exception (exn_cls e) = true ->
     forall e', py_str e = inl e' -> (predict w payload h).1 = inl e')
  /\ (is_Exception (exn_cls e) = false -> (predict w payload h).1 = inl e).
Proof.
  intros Hx Hm Hcall.
  assert (Hr : (predict w payload h).1 = inl (reraised e)).
  { rewrite (predict_unfold w payload h x m Hx Hm).
    destruct Hcall as [(-> & f & -> & ->)|[[-> | ->] ->]]; simpl; [done|done|].
    by destruct (env_predict_proba w). }
  rewrite Hr. unfold reraised.
  split; [|split].
  - by intros -> message ->.
  - by intros -> e' ->.
  - by intros ->.
Qed.

Lemma predict_wraps_downstream_failure_witness :
  (predict (world_of [] ∅) iris_payload (loaded est_failing)).1
  = inl (Exn InferenceError "bad input shape").
Proof.
  destruct (predict_wraps_downstream_failure (world_of [] ∅) iris_payload
              (loaded est_failing)
              (PList [PList [PInt 6; PInt 2]; PList [PInt 5; PInt 1]])
              est_failing (Exn (OtherException "ValueError") "bad input shape"))
    as [Hwrapped _].
  - reflexivity.
  - reflexivity.
  - right. split; [left|]; reflexivity.
  - apply Hwrapped; reflexivity.
Defined.

(** C5, as stated, fails: the envelope a successful [predict] returns has no
    [batchId] entry. *)
Lemma predict_envelope_without_batch_id :
  exists envelope,
    (predict (world_of [] ∅) iris_payload (loaded est_rows)).1 = inr envelope
    /\ envelope !! "predictions" = Some (PList [PInt 6; PInt 5])
    /\ envelope !! "batchId" = None.
Proof. eexists. split; [reflexivity|]. split; reflexivity. Qed.

(** C5, amended: a successful [predict] on a payload with instances [x] has
    called the estimator exactly once, with [x], and returns an envelope
    whose only key is [predictions], holding what [.tolist()] returned for
    what the estimator returned, in the estimator's order; when the estimator maps a
    function over the rows, entry [i] is that function of row [i].  The
    envelope has no [batchId]. *)
Theorem predict_success_envelope w payload h x envelope :
  payload !! "instances" = Some x ->
  (predict w payload h).1 = inr envelope ->
  exists m g c a result,
    _model (self h) = Some m
    /\ ((g = est_predict m /\ c = CallPredict x) \/
        (est_predict_proba m = Some g /\ c = CallPredictProba x))
    /\ g x = inr a
    /\ tolist a = inr result
    /\ calls (predict w payload h).2 = (calls h ++ [c])%list
    /\ envelope = {[ "predictions" := result ]}
    /\ dom envelope = ({[ "predictions" ]} : gset string)
    /\ envelope !! "batchId" = None
    /\ (forall f rows, x = PList rows -> rowwise g f ->
        exists ys, envelope !! "predictions" = Some (PList ys)
                   /\ length ys = length rows
                   /\ forall i, ys !! i = f <$> rows !! i).
Proof.
  intros Hx Hr.
  destruct (_model (self h)) as [m|] eqn:Hm;
    [| by rewrite (predict_unloaded w payload h x Hx Hm) in Hr].
  rewrite (predict_unfold w payload h x m Hx Hm) in Hr |- *.
  assert (Hgen : forall g c, (envelope_of (g x), logged h c).1 = inr envelope ->
    exists a result, g x = inr a /\ tolist a = inr result
      /\ calls (envelope_of (g x), logged h c).2 = (calls h ++ [c])%list
      /\ envelope = {[ "predictions" := result ]}
      /\ dom envelope = ({[ "predictions" ]} : gset string)
      /\ envelope !! "batchId" = None
      /\ (forall f rows, x = PList rows -> rowwise g f ->
          exists ys, envelope !! "predictions" = Some (PList ys)
                     /\ length ys = length rows
                     /\ forall i, ys !! i = f <$> rows !! i)).
  { intros g c Hg. simpl in Hg.
    apply envelope_returns in Hg as (a & result & Ha & Ht & ->).
    exists a, result. split; [done|]. split; [done|]. split; [done|].
    split; [done|]. split; [by rewrite dom_singleton_L|]. split; [done|].
    intros f rows -> Hrow. rewrite Hrow in Ha. injection Ha as <-.
    simpl in Ht. injection Ht as <-.
    exists (f <$> rows). split; [by rewrite lookup_singleton_eq|].
    split; [by rewrite length_fmap|]. intros i. by rewrite list_lookup_fmap. }
  destruct (env_predict_proba w); [destruct (est_predict_proba m) as [f|] eqn:Hp|].
  - destruct (Hgen f (CallPredictProba x) Hr)
      as (a & result & ? & ? & ? & ? & ? & ? & ?).
    exists m, f, (CallPredictProba x), a, result.
    repeat (split; [by eauto|]). done.
  - destruct (Hgen (est_predict m) (CallPredict x) Hr)
      as (a & result & ? & ? & ? & ? & ? & ? & ?).
    exists m, (est_predict m), (CallPredict x), a, result.
    repeat (split; [by eauto|]). done.
  - destruct (Hgen (est_predict m) (CallPredict x) Hr)
      as (a & result & ? & ? & ? & ? & ? & ? & ?).
    exists m, (est_predict m), (CallPredict x), a, result.
    repeat (split; [by eauto|]). done.
Qed.

Lemma predict_success_envelope_witness :
  exists m g c a result,
    _model (self (loaded est_rows)) = Some m
    /\ ((g = est_predict m /\
         c = CallPredict (PList [PList [PInt 6; PInt 2]; PList [PInt 5; PInt 1]])) \/
        (est_predict_proba m = Some g /\
         c = CallPredictProba (PList [PList [PInt 6; PInt 2]; PList [PInt 5; PInt 1]])))
    /\ g (PList [PList [PInt 6; PInt 2]; PList [PInt 5; PInt 1]]) = inr a
    /\ tolist a = inr result
    /\ calls (predict (world_of [] ∅) iris_payload (loaded est_rows)).2
       = (calls (loaded est_rows) ++ [c])%list
    /\ ({[ "predictions" := PList [PInt 6; PInt 5] ]} : gmap string pyval)
       = {[ "predictions" := result ]}
    /\ dom ({[ "predictions" := PList [PInt 6; PInt 5] ]} : gmap string pyval)
       = ({[ "predictions" ]} : gset string)
    /\ ({[ "predictions" := PList [PInt 6; PInt 5] ]} : gmap string pyval)
         !! "batchId" = None
    /\ (forall f rows,
        PList [PList [PInt 6; PInt 2]; PList [PInt 5; PInt 1]] = PList rows ->
        rowwise g f ->
        exists ys,
          ({[ "predictions" := PList [PInt 6; PInt 5] ]} : gmap string pyval)
            !! "predictions" = Some (PList ys)
          /\ length ys = length rows
          /\ forall i, ys !! i = f <$> rows !! i).
Proof.
  apply (predict_success_envelope (world_of [] ∅) iris_payload (loaded est_rows)
           (PList [PList [PInt 6; PInt 2]; PList [PInt 5; PInt 1]])
           {[ "predictions" := PList [PInt 6; PInt 5] ]}).
  - reflexivity.
  - reflexivity.
Defined.

(** C8: the environment test holds exactly when [PREDICT_PROBA] is set to a
    value equal to [true] up to case; when it holds and the estimator has
    [predict_proba], [predict] answers with the outcome of [predict_proba] on
    the instances; in every other case with that of [predict]. *)
Theorem predict_proba_selection w payload h x m :
  payload !! "instances" = Some x ->
  _model (self h) = Some m ->
  (env_predict_proba w = true <->
   exists v, os_environ w !! "PREDICT_PROBA" = Some v /\
             eq_ignoring_case v "true" = true)
  /\ (forall f, env_predict_proba w = true -> est_predict_proba m = Some f ->
      predict w payload h = (envelope_of (f x), logged h (CallPredictProba x)))
  /\ (env_predict_proba w = false \/ est_predict_proba m = None ->
      predict w payload h
      = (envelope_of (est_predict m x), logged h (CallPredict x))).
Proof.
  intros Hx Hm. rewrite (predict_unfold w payload h x m Hx Hm).
  split; [apply env_predict_proba_spec|]. split.
  - by intros f -> ->.
  - intros [-> | ->]; [done|]. by destruct (env_predict_proba w).
Qed.

Lemma predict_proba_selection_witness :
  predict (world_of [] {[ "PREDICT_PROBA" := "True" ]}) iris_payload
    (loaded est_rows)
  = (inr {[ "predictions" :=
              PList [PList [PList [PInt 6; PInt 2]]; PList [PList [PInt 5; PInt 1]]] ]},
     logged (loaded est_rows)
       (CallPredictProba (PList [PList [PInt 6; PInt 2]; PList [PInt 5; PInt 1]]))).
Proof.
  apply (proj1 (proj2 (predict_proba_selection
           (world_of [] {[ "PREDICT_PROBA" := "True" ]}) iris_payload
           (loaded est_rows)
           (PList [PList [PInt 6; PInt 2]; PList [PInt 5; PInt 1]])
           est_rows eq_refl eq_refl))
         (rowwise_fn (fun row => PList [row]))); reflexivity.
Defined.




End SKLearnFacts.

(* ===================================================================== *)
(** * Part II, verified: runs of the batching engine                      *)
(* ===================================================================== *)

Module BatcherFacts.
Import Batcher.
#[local] Open Scope list_scope.

(** *** Lists *)

Lemma concat_NoDup_same_index {A} (ls : list (list A)) i j l1 l2 x :
  NoDup (concat ls) ->
  ls !! i = Some l1 -> ls !! j = Some l2 -> x ∈ l1 -> x ∈ l2 -> i = j.
Proof.
  revert i j. induction ls as [|l ls IH]; intros i j Hnd Hi Hj H1 H2; [done|].
  simpl in Hnd. apply NoDup_app in Hnd as (_ & Hdisj & Hnd).
  assert (Hin : forall k l', ls !! k = Some l' -> x ∈ l' -> x ∈ concat ls).
  { intros k l' Hk Hx. apply list_elem_of_In, in_concat.
    exists l'. split; apply list_elem_of_In; [|done].
    by eapply list_elem_of_lookup_2. }
  destruct i as [|i], j as [|j]; simpl in *; simplify_eq; try done.
  - exfalso. eapply Hdisj; eauto.
  - exfalso. eapply Hdisj; eauto.
  - f_equal. eauto.
Qed.

Lemma filter_all {A} (P : A -> Prop) `{!forall x, Decision (P x)} (l : list A) :
  Forall P l -> filter P l = l.
Proof.
  induction 1 as [|x l Hx _ IH]; [done|].
  by rewrite filter_cons_True, IH.
Qed.

Lemma filter_none {A} (P : A -> Prop) `{!forall x, Decision (P x)} (l : list A) :
  Forall (fun x => ~ P x) l -> filter P l = [].
Proof.
  induction 1 as [|x l Hx _ IH]; [done|].
  by rewrite filter_cons_False.
Qed.

(** In a list whose [f]-images are pairwise distinct, exactly one element
    has the image of a given member. *)
Lemma filter_NoDup_fmap_one {A} (f : A -> nat) (l : list A) (k : nat) :
  NoDup (f <$> l) -> k ∈ f <$> l ->
  length (filter (fun y => f y = k) l) = 1.
Proof.
  induction l as [|y l IH]; simpl; intros Hnd Hk.
  - by apply elem_of_nil in Hk.
  - apply NoDup_cons in Hnd as [Hy Hnd].
    destruct (decide (f y = k)) as [Heq|Hne].
    + rewrite filter_cons_True by done. simpl. f_equal.
      rewrite filter_none; [done|].
      apply Forall_forall. intros z Hz Hfz. apply Hy.
      rewrite Heq, <- Hfz. by apply list_elem_of_fmap_2.
    + rewrite filter_cons_False by done. apply IH; [done|].
      apply elem_of_cons in Hk as [Hk|Hk]; [congruence | done].
Qed.


Lemma fmap_zip_with_proj {A B C D} (f : A -> B -> C) (g : C -> D) (h : A -> D)
    (l : list A) (k : list B) :
  (forall x y, g (f x y) = h x) -> length l <= length k ->
  g <$> zip_with f l k = h <$> l.
Proof.
  intros Hg. revert k. induction l as [|x l IH]; intros [|y k] Hl; simpl in *;
    try done; [lia|].
  rewrite Hg, IH; [done | lia].
Qed.

Section Runs.

Context {Payload Result : Type}.
Variable cfg : Config.
Variable predictor : Predictor Payload Result.

(** *** The dispatcher on one batch *)

Lemma dispatch_set_state b st :
  dispatch predictor (set_state b st) = dispatch predictor b.
Proof. reflexivity. Qed.

Lemma fan_out_sinks b : d_sink <$> fan_out predictor b = sinks_of b.
Proof.
  unfold fan_out, sinks_of, dispatch.
  destruct (predictor (payload <$> items b)) as [msg|results]; simpl.
  - rewrite <- list_fmap_compose. done.
  - case_decide as Hlen; simpl.
    + apply fmap_zip_with_proj; [done | lia].
    + rewrite <- list_fmap_compose. done.
Qed.

Lemma fan_out_length b : length (fan_out predictor b) = length (items b).
Proof.
  rewrite <- (length_fmap d_sink), fan_out_sinks. unfold sinks_of.
  by rewrite length_fmap.
Qed.

Lemma fan_out_batch b : Forall (fun d => d_batch d = id b) (fan_out predictor b).
Proof.
  unfold fan_out, dispatch.
  destruct (predictor (payload <$> items b)) as [msg|results]; simpl.
  - apply Forall_fmap, Forall_forall. done.
  - case_decide; simpl.
    + apply Forall_forall. intros d Hd.
      apply list_elem_of_lookup_1 in Hd as [i Hi].
      apply lookup_zip_with_Some in Hi as (it & r & -> & _ & _). done.
    + apply Forall_fmap, Forall_forall. done.
Qed.

Lemma dispatch_failure b description :
  predictor (payload <$> items b) = inl description ->
  dispatch predictor b =
  (FAILED, deliver_to b (Failure (InferenceError description)) <$> items b).
Proof. intros H. unfold dispatch. by rewrite H. Qed.

Lemma dispatch_success b results :
  predictor (payload <$> items b) = inr results ->
  length results = length (items b) ->
  dispatch predictor b =
  (COMPLETED,
   zip_with (fun it r => deliver_to b (Success r) it) (items b) results).
Proof. intros H Hl. unfold dispatch. rewrite H. by rewrite decide_True. Qed.

(** [close_current] on an open, non-empty batch. *)
Lemma close_current_open (e : Engine Payload Result) b :
  state b = OPEN -> items b ≠ [] ->
  close_current predictor e b =
  {| next_id := next_id e; next_sink := next_sink e; current := None;
     finished := finished e ++ [set_state b (dispatch predictor b).1];
     delivered := delivered e ++ fan_out predictor b;
     downstream_calls := downstream_calls e ++ [call_of b];
     shutting_down := shutting_down e |}.
Proof.
  intros Hst Hne. unfold close_current, try_close. rewrite Hst. simpl.
  destruct (items b) as [|it its] eqn:Hit; [done|].
  rewrite dispatch_set_state, dispatch_set_state.
  unfold fan_out, call_of. rewrite Hit.
  by destruct (dispatch predictor b) as [final out].
Qed.

(** *** The invariant of the engine *)

Lemma Inv_new : Inv cfg predictor new_engine.
Proof. split; try done. Qed.

Lemma Inv_close (e : Engine Payload Result) b :
  id <$> (finished e ++ [b]) = seq 0 (next_id e) ->
  concat (sinks_of <$> (finished e ++ [b])) = seq 0 (next_sink e) ->
  delivered e = concat (fan_out predictor <$> finished e) ->
  downstream_calls e = call_of <$> finished e ->
  Forall (fun b => items b ≠ [] /\
                   length (items b) <= Pos.to_nat (max_batch_size cfg) /\
                   state b = (dispatch predictor b).1) (finished e) ->
  state b = OPEN -> items b ≠ [] ->
  length (items b) <= Pos.to_nat (max_batch_size cfg) ->
  Inv cfg predictor (close_current predictor e b).
Proof.
  intros Hids Hsinks Hdel Hcalls Hfin Hst Hne Hlen.
  rewrite close_current_open by done.
  split; unfold all_batches; simpl; rewrite ?app_nil_r.
  - rewrite <- Hids, !fmap_app. done.
  - rewrite <- Hsinks, !fmap_app. done.
  - rewrite fmap_app, concat_app, Hdel. simpl. by rewrite app_nil_r.
  - rewrite fmap_app, Hcalls. done.
  - done.
  - apply Forall_app. split; [done|]. apply Forall_singleton. done.
Qed.

Lemma sinks_snoc (bs : list (Batch Payload)) b it :
  concat (sinks_of <$> (bs ++ [add_item b it]))
  = concat (sinks_of <$> (bs ++ [b])) ++ [resultSink it].
Proof.
  rewrite !fmap_app, !concat_app. simpl. unfold sinks_of. simpl.
  rewrite fmap_app, !app_nil_r, <- app_assoc. done.
Qed.

Lemma Inv_enqueue e now p : Inv cfg predictor e -> Inv cfg predictor (enqueue cfg predictor e now p).1.
Proof.
  intros [Hids Hsinks Hdel Hcalls Hcur Hfin]. unfold enqueue.
  destruct (shutting_down e) eqn:Hsd; [by split|].
  unfold all_batches in Hids, Hsinks.
  destruct (current e) as [b|] eqn:Hc.
  - change (option_list (Some b)) with [b] in Hids, Hsinks.
    destruct (Hcur b eq_refl) as (Hst & Hne & Hlt).
    assert (Hids' : id <$> (finished e ++ [add_item b
              {| payload := p; resultSink := next_sink e; enqueuedAt := now |}])
            = seq 0 (next_id e)).
    { rewrite fmap_app in Hids |- *. done. }
    assert (Hsinks' : concat (sinks_of <$> (finished e ++ [add_item b
              {| payload := p; resultSink := next_sink e; enqueuedAt := now |}]))
            = seq 0 (S (next_sink e))).
    { rewrite sinks_snoc, Hsinks, seq_S. done. }
    assert (Hne' : items (add_item b
              {| payload := p; resultSink := next_sink e; enqueuedAt := now |})
            ≠ []).
    { simpl. by destruct (items b). }
    case_decide as Hfull; cbn [fst].
    + apply Inv_close; try done. rewrite Hfull. done.
    + split; unfold all_batches; cbn [current finished delivered
        downstream_calls next_id next_sink option_list]; try done.
      intros b' [= <-]. split; [done|]. split; [done|].
      simpl in Hfull |- *. rewrite length_app in Hfull |- *. simpl in *. lia.
  - change (option_list None) with (@nil (Batch Payload)) in Hids, Hsinks.
    rewrite app_nil_r in Hids, Hsinks.
    assert (Hids' : id <$> (finished e ++ [add_item (open_batch cfg e now)
              {| payload := p; resultSink := next_sink e; enqueuedAt := now |}])
            = seq 0 (S (next_id e))).
    { rewrite fmap_app, Hids, seq_S. done. }
    assert (Hsinks' : concat (sinks_of <$> (finished e ++
              [add_item (open_batch cfg e now)
                 {| payload := p; resultSink := next_sink e; enqueuedAt := now |}]))
            = seq 0 (S (next_sink e))).
    { rewrite fmap_app, concat_app, Hsinks, seq_S. done. }
    case_decide as Hfull; cbn [fst].
    + apply Inv_close; try done. rewrite Hfull. done.
    + split; unfold all_batches; cbn [current finished delivered
        downstream_calls next_id next_sink option_list]; try done.
      intros b' [= <-]. split; [done|]. split; [done|].
      simpl in Hfull |- *. lia.
Qed.

Lemma Inv_on_timer e now : Inv cfg predictor e -> Inv cfg predictor (on_timer predictor e now).
Proof.
  intros HI. unfold on_timer.
  destruct (current e) as [b|] eqn:Hc; [|done].
  case_decide; [|done].
  destruct HI as [Hids Hsinks Hdel Hcalls Hcur Hfin].
  unfold all_batches in Hids, Hsinks. rewrite Hc in Hids, Hsinks.
  change (option_list (Some b)) with [b] in Hids, Hsinks.
  destruct (Hcur b Hc) as (Hst & Hne & Hlt).
  apply Inv_close; try done. lia.
Qed.

Lemma Inv_step e ev : Inv cfg predictor e -> Inv cfg predictor (step cfg predictor e ev).
Proof.
  destruct ev as [now p|now|]; simpl.
  - apply Inv_enqueue.
  - apply Inv_on_timer.
  - intros [? ? ? ? ? ?]. by split.
Qed.

Lemma Inv_fold evs e : Inv cfg predictor e -> Inv cfg predictor (fold_left (step cfg predictor) evs e).
Proof.
  revert e. induction evs as [|ev evs IH]; intros e HI; simpl; [done|].
  apply IH, Inv_step, HI.
Qed.

Lemma run_snoc evs ev :
  run cfg predictor (evs ++ [ev])
  = step cfg predictor (run cfg predictor evs) ev.
Proof. unfold run. by rewrite fold_left_app. Qed.

Lemma Inv_run evs : Inv cfg predictor (run cfg predictor evs).
Proof. apply Inv_fold, Inv_new. Qed.


(** *** What the invariant gives *)

Lemma fmap_concat_fan_out (bs : list (Batch Payload)) :
  d_sink <$> concat (fan_out predictor <$> bs) = concat (sinks_of <$> bs).
Proof.
  induction bs as [|b bs IH]; [done|].
  rewrite !fmap_cons. cbn [concat]. by rewrite fmap_app, fan_out_sinks, IH.
Qed.

Lemma elem_of_concat_fan_out (bs : list (Batch Payload)) d :
  d ∈ concat (fan_out predictor <$> bs) ->
  exists j b, bs !! j = Some b /\ d ∈ fan_out predictor b.
Proof.
  induction bs as [|b bs IH]; simpl; [by intros ?%elem_of_nil|].
  intros [Hd|Hd]%elem_of_app.
  - exists 0, b. done.
  - destruct (IH Hd) as (j & b' & ? & ?). exists (S j), b'. done.
Qed.

Lemma fan_out_elem b d :
  d ∈ fan_out predictor b -> d_batch d = id b /\ d_sink d ∈ sinks_of b.
Proof.
  intros Hd. split.
  - pose proof (fan_out_batch b) as Hall.
    rewrite Forall_forall in Hall. by apply Hall.
  - rewrite <- fan_out_sinks. by apply list_elem_of_fmap_2.
Qed.

Lemma Inv_NoDup_ids e : Inv cfg predictor e -> NoDup (id <$> all_batches e).
Proof. intros HI. rewrite (inv_ids cfg predictor e HI). apply NoDup_seq. Qed.

Lemma Inv_NoDup_sinks e : Inv cfg predictor e -> NoDup (concat (sinks_of <$> all_batches e)).
Proof. intros HI. rewrite (inv_sinks cfg predictor e HI). apply NoDup_seq. Qed.

Lemma Inv_delivered_sinks e :
  Inv cfg predictor e -> d_sink <$> delivered e = concat (sinks_of <$> finished e).
Proof. intros HI. rewrite (inv_delivered cfg predictor e HI). apply fmap_concat_fan_out. Qed.

Lemma Inv_NoDup_delivered e : Inv cfg predictor e -> NoDup (d_sink <$> delivered e).
Proof.
  intros HI. rewrite (Inv_delivered_sinks e HI).
  pose proof (Inv_NoDup_sinks e HI) as Hnd. unfold all_batches in Hnd.
  rewrite fmap_app, concat_app in Hnd. by apply NoDup_app in Hnd as (? & _ & _).
Qed.

Lemma finished_lookup_all (e : Engine Payload Result) j b :
  finished e !! j = Some b -> all_batches e !! j = Some b.
Proof. intros H. unfold all_batches. by apply lookup_app_l_Some. Qed.

(** A sink resolution comes from the fan-out of a finished batch. *)
Lemma Inv_delivery_origin e d :
  Inv cfg predictor e -> d ∈ delivered e ->
  exists j b, finished e !! j = Some b /\ d ∈ fan_out predictor b.
Proof.
  intros HI Hd. rewrite (inv_delivered cfg predictor e HI) in Hd.
  by apply elem_of_concat_fan_out.
Qed.

(** A sink belongs to one batch only. *)
Lemma Inv_sink_batch e i j b b' s :
  Inv cfg predictor e -> all_batches e !! i = Some b -> all_batches e !! j = Some b' ->
  s ∈ sinks_of b -> s ∈ sinks_of b' -> i = j.
Proof.
  intros HI Hi Hj Hs Hs'.
  eapply (concat_NoDup_same_index (sinks_of <$> all_batches e) i j);
    [by apply Inv_NoDup_sinks | | | exact Hs | exact Hs'].
  - by rewrite list_lookup_fmap, Hi.
  - by rewrite list_lookup_fmap, Hj.
Qed.

(** A batch identifier belongs to one batch only. *)
Lemma Inv_id_batch e i j b b' :
  Inv cfg predictor e -> all_batches e !! i = Some b -> all_batches e !! j = Some b' ->
  id b = id b' -> i = j.
Proof.
  intros HI Hi Hj Hid.
  eapply (NoDup_lookup (id <$> all_batches e) i j (id b));
    [by apply Inv_NoDup_ids | |].
  - by rewrite list_lookup_fmap, Hi.
  - by rewrite list_lookup_fmap, Hj, Hid.
Qed.

(** The resolution of an item's sink carries the identifier of the item's
    batch. *)
Lemma Inv_delivery_batch e i b it d :
  Inv cfg predictor e -> all_batches e !! i = Some b -> it ∈ items b ->
  d ∈ delivered e -> d_sink d = resultSink it ->
  finished e !! i = Some b /\ d ∈ fan_out predictor b /\ d_batch d = id b.
Proof.
  intros HI Hi Hit Hd Hs.
  destruct (Inv_delivery_origin e d HI Hd) as (j & b' & Hj & Hd').
  destruct (fan_out_elem b' d Hd') as [Hb Hsink].
  assert (i = j) as ->.
  { eapply (Inv_sink_batch e i j b b' (d_sink d) HI Hi);
      [by apply finished_lookup_all | | done].
    rewrite Hs. by apply list_elem_of_fmap_2. }
  apply finished_lookup_all in Hj as Hj'. rewrite Hi in Hj'.
  injection Hj' as <-. done.
Qed.

(** The resolutions tagged with a finished batch are its fan-out. *)
Lemma Inv_deliveries_of e b :
  Inv cfg predictor e -> b ∈ finished e -> deliveries_of e (id b) = fan_out predictor b.
Proof.
  intros HI Hb. unfold deliveries_of. rewrite (inv_delivered cfg predictor e HI).
  pose proof (Inv_NoDup_ids e HI) as Hnd. unfold all_batches in Hnd.
  rewrite fmap_app in Hnd. apply NoDup_app in Hnd as (Hnd & _ & _).
  clear HI. induction (finished e) as [|b' bs IH]; [by apply elem_of_nil in Hb|].
  simpl in *. apply NoDup_cons in Hnd as [Hb' Hnd]. rewrite filter_app.
  apply elem_of_cons in Hb as [->|Hb].
  - rewrite filter_all by apply fan_out_batch.
    rewrite filter_none; [by rewrite app_nil_r|].
    apply Forall_forall. intros d Hd Hid.
    apply elem_of_concat_fan_out in Hd as (j & b'' & Hj & Hd).
    apply fan_out_elem in Hd as [Hd _]. apply Hb'.
    rewrite <- Hid, Hd. apply list_elem_of_fmap_2.
    by eapply list_elem_of_lookup_2.
  - rewrite filter_none.
    + simpl. by apply IH.
    + apply Forall_forall. intros d Hd Hid.
      apply fan_out_elem in Hd as [Hd _]. apply Hb'.
      rewrite <- Hd, Hid. by apply list_elem_of_fmap_2.
Qed.


(** ** The claims about the engine *)

(** C1: in every run, the resolution of an item's sink carries the
    identifier of the batch the item was admitted into, be it a success or a
    failure, and two such resolutions carry the same identifier exactly when
    the two items were admitted into the same batch. *)
Theorem batch_identity evs i1 i2 b1 b2 it1 it2 d1 d2 :
  all_batches (run cfg predictor evs) !! i1 = Some b1 ->
  all_batches (run cfg predictor evs) !! i2 = Some b2 ->
  it1 ∈ items b1 -> it2 ∈ items b2 ->
  d1 ∈ delivered (run cfg predictor evs) ->
  d2 ∈ delivered (run cfg predictor evs) ->
  d_sink d1 = resultSink it1 -> d_sink d2 = resultSink it2 ->
  d_batch d1 = id b1 /\ d_batch d2 = id b2 /\
  (d_batch d1 = d_batch d2 <-> i1 = i2).
Proof.
  intros Hb1 Hb2 Hit1 Hit2 Hd1 Hd2 Hs1 Hs2.
  pose proof (Inv_run evs) as HI.
  destruct (Inv_delivery_batch _ i1 b1 it1 d1 HI Hb1 Hit1 Hd1 Hs1) as (_ & _ & H1).
  destruct (Inv_delivery_batch _ i2 b2 it2 d2 HI Hb2 Hit2 Hd2 Hs2) as (_ & _ & H2).
  split; [done|]. split; [done|]. rewrite H1, H2. split.
  - by apply (Inv_id_batch _ i1 i2 b1 b2 HI).
  - intros ->. congruence.
Qed.

(** The sink of an item of a dispatched batch has exactly one resolution,
    which is one of the fan-out of its batch. *)
Lemma resolution_of_item e b it :
  Inv cfg predictor e -> b ∈ finished e -> it ∈ items b ->
  exists d, resolutions_of e (resultSink it) = [d]
            /\ d ∈ fan_out predictor b /\ d_sink d = resultSink it.
Proof.
  intros HI Hb Hit.
  assert (Hlen : length (resolutions_of e (resultSink it)) = 1).
  { unfold resolutions_of.
    apply filter_NoDup_fmap_one; [by apply Inv_NoDup_delivered|].
    rewrite (Inv_delivered_sinks e HI).
    apply list_elem_of_In, in_concat. exists (sinks_of b).
    split; apply list_elem_of_In; by apply list_elem_of_fmap_2. }
  destruct (resolutions_of e (resultSink it)) as [|d [|d' l]] eqn:Hres;
    simpl in Hlen; try lia.
  exists d. split; [done|].
  assert (Hd : d ∈ resolutions_of e (resultSink it)) by (rewrite Hres; left).
  unfold resolutions_of in Hd. apply list_elem_of_filter in Hd as [Hs Hd].
  apply list_elem_of_lookup_1 in Hb as [i Hi].
  destruct (Inv_delivery_batch e i b it d HI (finished_lookup_all e i b Hi)
              Hit Hd Hs) as (_ & Hdb & _).
  done.
Qed.

(** C6: in every run, when the predictor call of a dispatched batch fails
    with a description, the batch ends FAILED; each of its items receives
    exactly one resolution, which is the failure [InferenceError] carrying
    that description, tagged with the batch; and every resolution tagged with
    the batch or delivered to one of its items is that failure: none is a
    success. *)
Theorem batch_fails_atomically evs b description :
  b ∈ finished (run cfg predictor evs) ->
  predictor (payload <$> items b) = inl description ->
  state b = FAILED
  /\ length (deliveries_of (run cfg predictor evs) (id b)) = length (items b)
  /\ Forall (fun d => d_outcome d = Failure (InferenceError description)
                      /\ is_success (d_outcome d) = false)
       (deliveries_of (run cfg predictor evs) (id b))
  /\ (forall it d, it ∈ items b -> d ∈ delivered (run cfg predictor evs) ->
      d_sink d = resultSink it ->
      d_batch d = id b /\
      d_outcome d = Failure (InferenceError description))
  /\ (forall it, it ∈ items b ->
      resolutions_of (run cfg predictor evs) (resultSink it)
      = [{| d_sink := resultSink it; d_batch := id b;
            d_outcome := Failure (InferenceError description) |}]).
Proof.
  intros Hb Hfail. pose proof (Inv_run evs) as HI.
  set (e := run cfg predictor evs) in *.
  assert (Hout : Forall (fun d => d_outcome d = Failure (InferenceError description)
                      /\ is_success (d_outcome d) = false) (fan_out predictor b)).
  { unfold fan_out. rewrite (dispatch_failure b description Hfail). simpl.
    apply Forall_fmap, Forall_forall. done. }
  split; [|split; [|split; [|split]]].
  - pose proof (inv_finished cfg predictor e HI) as Hfin. rewrite Forall_forall in Hfin.
    destruct (Hfin b Hb) as (_ & _ & ->).
    by rewrite (dispatch_failure b description Hfail).
  - rewrite (Inv_deliveries_of e b HI Hb). apply fan_out_length.
  - by rewrite (Inv_deliveries_of e b HI Hb).
  - intros it d Hit Hd Hs.
    apply list_elem_of_lookup_1 in Hb as [i Hi].
    destruct (Inv_delivery_batch e i b it d HI (finished_lookup_all e i b Hi)
                Hit Hd Hs) as (_ & Hdb & Hid).
    split; [done|]. rewrite Forall_forall in Hout. by apply Hout.
  - intros it Hit.
    destruct (resolution_of_item e b it HI Hb Hit) as (d & -> & Hd & Hs).
    f_equal. rewrite Forall_forall in Hout.
    destruct (Hout d Hd) as [Ho _].
    destruct (fan_out_elem b d Hd) as [Hbatch _].
    destruct d as [s bid o]. simpl in *. by subst.
Qed.

(** C7: in every run, each dispatched batch has as many resolutions as
    items and each of its items is resolved exactly once; the items of the
    batch still open are not resolved yet, and the timer at its deadline
    closes it, so that they are resolved in turn. *)
Theorem exactly_once_delivery evs :
  (forall b, b ∈ finished (run cfg predictor evs) ->
     length (deliveries_of (run cfg predictor evs) (id b)) = length (items b)
     /\ forall it, it ∈ items b ->
          length (resolutions_of (run cfg predictor evs) (resultSink it)) = 1)
  /\ (forall b, current (run cfg predictor evs) = Some b ->
     (forall it, it ∈ items b ->
        resolutions_of (run cfg predictor evs) (resultSink it) = [])
     /\ forall now, (deadline b <= now)%N ->
        exists final,
          current (run cfg predictor (evs ++ [Tick now])) = None
          /\ finished (run cfg predictor (evs ++ [Tick now]))
             = finished (run cfg predictor evs) ++ [final]
          /\ id final = id b /\ items final = items b).
Proof.
  pose proof (Inv_run evs) as HI.
  set (e := run cfg predictor evs) in *.
  split.
  - intros b Hb. split.
    + rewrite (Inv_deliveries_of e b HI Hb). apply fan_out_length.
    + intros it Hit. unfold resolutions_of.
      apply filter_NoDup_fmap_one; [by apply Inv_NoDup_delivered|].
      rewrite (Inv_delivered_sinks e HI).
      apply list_elem_of_In, in_concat. exists (sinks_of b).
      split; apply list_elem_of_In.
      * by apply list_elem_of_fmap_2.
      * by apply list_elem_of_fmap_2.
  - intros b Hc. split.
    + intros it Hit. unfold resolutions_of. apply filter_none.
      apply Forall_forall. intros d Hd Hs.
      assert (Hb : all_batches e !! length (finished e) = Some b).
      { unfold all_batches. rewrite Hc.
        by rewrite lookup_app_r, Nat.sub_diag by lia. }
      destruct (Inv_delivery_batch e _ b it d HI Hb Hit Hd Hs) as (Hf & _).
      apply lookup_lt_Some in Hf. lia.
    + intros now Hnow. rewrite run_snoc. fold e. simpl.
      unfold on_timer. rewrite Hc.
      rewrite decide_True by done.
      destruct (inv_current cfg predictor e HI b Hc) as (Hst & Hne & _).
      rewrite close_current_open by done. simpl. eauto.
Qed.


(** *** Filling one batch *)

(** With the slot empty, clock ticks change nothing. *)
Lemma idle_ticks evs d (e : Engine Payload Result) :
  current e = None -> Forall (before_deadline d) evs -> submitted evs = [] ->
  fold_left (step cfg predictor) evs e = e.
Proof.
  intros Hc Hall. revert e Hc.
  induction Hall as [|ev evs Hev _ IH]; intros e Hc Hsub; [done|].
  destruct ev as [now p|now|]; simpl in *; [done| |done].
  unfold on_timer. rewrite Hc. by apply IH.
Qed.

Lemma idle_handles evs d (e : Engine Payload Result) :
  current e = None -> Forall (before_deadline d) evs -> submitted evs = [] ->
  handles cfg predictor e evs = [].
Proof.
  intros Hc Hall. revert e Hc.
  induction Hall as [|ev evs Hev _ IH]; intros e Hc Hsub; [done|].
  destruct ev as [now p|now|]; simpl in *; [done| |done].
  unfold on_timer. rewrite Hc. by apply IH.
Qed.

(** Submissions that all arrive before the deadline of the open batch and
    bring it exactly to [max_batch_size] end in one dispatch of that batch;
    each submitter is handed that batch and the next fresh sink. *)
Lemma fill_open_batch evs : forall (e : Engine Payload Result) b,
  current e = Some b -> state b = OPEN -> shutting_down e = false ->
  Forall (before_deadline (deadline b)) evs ->
  length (items b) + length (submitted evs)
    = Pos.to_nat (max_batch_size cfg) ->
  0 < length (submitted evs) ->
  exists closed,
    id closed = id b
    /\ payload <$> items closed = (payload <$> items b) ++ submitted evs
    /\ state closed = (dispatch predictor closed).1
    /\ current (fold_left (step cfg predictor) evs e) = None
    /\ finished (fold_left (step cfg predictor) evs e)
       = finished e ++ [closed]
    /\ delivered (fold_left (step cfg predictor) evs e)
       = delivered e ++ fan_out predictor closed
    /\ downstream_calls (fold_left (step cfg predictor) evs e)
       = downstream_calls e ++ [call_of closed]
    /\ resultSink <$> items closed
       = (resultSink <$> items b)
         ++ seq (next_sink e) (length (submitted evs))
    /\ handles cfg predictor e evs
       = (fun i => inr {| h_batch := id b; h_sink := i |})
         <$> seq (next_sink e) (length (submitted evs)).
Proof.
  induction evs as [|ev evs IH]; intros e b Hc Hst Hsd Hall Hlen Hpos;
    [simpl in Hpos; lia|].
  apply Forall_cons in Hall as [Hev Hall].
  destruct ev as [now p|now|]; simpl in Hev, Hlen, Hpos |- *; [| |done].
  - unfold enqueue. rewrite Hsd, Hc. cbn [fst snd].
    set (it := {| payload := p; resultSink := next_sink e; enqueuedAt := now |}).
    case_decide as Hfull; cbn [fst snd].
    + rewrite close_current_open; [|done|simpl; by destruct (items b)].
      simpl in Hfull. rewrite length_app in Hfull. simpl in Hfull.
      assert (Hnil : submitted evs = []).
      { destruct (submitted evs); [done|]. simpl in Hlen. lia. }
      rewrite (idle_ticks evs (deadline b)); [|done|done|done].
      rewrite (idle_handles evs (deadline b)); [|done|done|done].
      exists (set_state (add_item b it) (dispatch predictor (add_item b it)).1).
      cbn [current finished delivered downstream_calls].
      rewrite Hnil. simpl. rewrite !fmap_app. simpl.
      repeat split; reflexivity.
    + simpl in Hfull. rewrite length_app in Hfull. simpl in Hfull.
      edestruct (IH {| next_id := next_id e; next_sink := S (next_sink e);
                       current := Some (add_item b it); finished := finished e;
                       delivered := delivered e;
                       downstream_calls := downstream_calls e;
                       shutting_down := false |} (add_item b it))
        as (closed & Hid & Hpay & Hstate & Hcur & Hfin & Hdel & Hcalls
            & Hsinks & Hhandles);
        try done.
      * simpl. rewrite length_app. simpl. lia.
      * lia.
      * exists closed. simpl in *.
        rewrite fmap_app, <- app_assoc in Hpay.
        rewrite fmap_app, <- app_assoc in Hsinks.
        rewrite Hhandles.
        repeat split; done.
  - unfold on_timer. rewrite Hc. rewrite decide_False by lia.
    by apply IH.
Qed.

End Runs.

(** *** The end-to-end test *)

(** C2, as stated, fails: with [max_batch_size=32] and [max_latency=5000],
    32 submissions that all arrive before the deadline of the first form one
    batch, and when the predictor fails on it none of the 32 responses is a
    success. *)
Lemma e2e_failing_predictor_no_success :
  length (submitted (Submit 0 0 :: test_submissions)) = 32
  /\ Forall (before_deadline (0 + 5000)%N) test_submissions
  /\ length (finished
       (run test_batcher_config failing (Submit 0 0 :: test_submissions))) = 1
  /\ length (delivered
       (run test_batcher_config failing (Submit 0 0 :: test_submissions))) = 32
  /\ Forall (fun d => is_success (d_outcome d) = false)
       (delivered
          (run test_batcher_config failing (Submit 0 0 :: test_submissions))).
Proof.
  split; [reflexivity|]. split.
  { vm_compute. repeat (constructor; [reflexivity|]). constructor. }
  split; [reflexivity|]. split; [reflexivity|].
  vm_compute. repeat (constructor; [reflexivity|]). constructor.
Qed.

(** C2, amended: with [max_batch_size=32] and [max_latency=5000], 32
    submissions that all reach the engine before the deadline of the batch
    the first one opens, in whatever order and with whatever clock ticks in
    between, form exactly one batch; the predictor is called once, on the 32
    payloads in order; submitter [i] is handed that batch and sink [i], and
    sink [i] is resolved once, with that batch's identifier.  When the
    predictor answers the batch with 32 results, the batch completes and
    sink [i] gets result [i] as a success; when the predictor fails, the
    batch fails and every sink gets the failure. *)
Theorem e2e_one_batch_of_32 {Payload Result : Type}
    (predictor : Predictor Payload Result) t0 p0 rest :
  Forall (before_deadline (t0 + 5000)%N) rest ->
  length (submitted (Submit t0 p0 :: rest)) = 32 ->
  exists b,
    finished (run test_batcher_config predictor (Submit t0 p0 :: rest)) = [b]
    /\ current (run test_batcher_config predictor (Submit t0 p0 :: rest)) = None
    /\ payload <$> items b = submitted (Submit t0 p0 :: rest)
    /\ resultSink <$> items b = seq 0 32
    /\ downstream_calls (run test_batcher_config predictor (Submit t0 p0 :: rest))
       = [(id b, submitted (Submit t0 p0 :: rest))]
    /\ handles test_batcher_config predictor new_engine (Submit t0 p0 :: rest)
       = (fun i => inr {| h_batch := id b; h_sink := i |}) <$> seq 0 32
    /\ d_sink <$> delivered
         (run test_batcher_config predictor (Submit t0 p0 :: rest)) = seq 0 32
    /\ Forall (fun d => d_batch d = id b)
         (delivered (run test_batcher_config predictor (Submit t0 p0 :: rest)))
    /\ (forall results,
        predictor (submitted (Submit t0 p0 :: rest)) = inr results ->
        length results = 32 ->
        state b = COMPLETED /\
        delivered (run test_batcher_config predictor (Submit t0 p0 :: rest))
        = zip_with
            (fun i r => {| d_sink := i; d_batch := id b;
                           d_outcome := Success r |})
            (seq 0 32) results)
    /\ (forall description,
        predictor (submitted (Submit t0 p0 :: rest)) = inl description ->
        state b = FAILED /\
        delivered (run test_batcher_config predictor (Submit t0 p0 :: rest))
        = (fun i => {| d_sink := i; d_batch := id b;
                       d_outcome := Failure (InferenceError description) |})
          <$> seq 0 32).
Proof.
  intros Hall Hlen.
  set (b1 := {| id := 0;
                items := [{| payload := p0; resultSink := 0; enqueuedAt := t0 |}];
                state := OPEN; deadline := (t0 + 5000)%N |} : Batch Payload).
  set (e1 := {| next_id := 1; next_sink := 1; current := Some b1;
       finished := []; delivered := []; downstream_calls := [];
       shutting_down := false |} : Engine Payload Result).
  assert (Hrun : run test_batcher_config predictor (Submit t0 p0 :: rest)
                 = fold_left (step test_batcher_config predictor) rest e1)
    by reflexivity.
  assert (Hhd : handles test_batcher_config predictor new_engine
                  (Submit t0 p0 :: rest)
                = inr {| h_batch := 0; h_sink := 0 |}
                  :: handles test_batcher_config predictor e1 rest)
    by reflexivity.
  rewrite Hrun, Hhd. clear Hrun Hhd. simpl in Hlen.
  destruct (fill_open_batch test_batcher_config predictor rest e1 b1)
    as (b & Hid & Hpay & Hstate & Hcur & Hfin & Hdel & Hcalls & Hsinks & Hh);
    [done | done | done | done | simpl; lia | lia |].
  simpl in Hid, Hpay, Hfin, Hdel, Hcalls, Hsinks, Hh.
  assert (Hrest : length (submitted rest) = 31) by lia.
  rewrite Hrest in Hsinks, Hh.
  change (0 :: seq 1 31) with (seq 0 32) in Hsinks.
  exists b. rewrite Hfin, Hcur, Hdel, Hcalls, Hh, Hid. unfold call_of.
  rewrite Hpay, Hid.
  split; [done|]. split; [done|]. split; [done|]. split; [done|].
  split; [done|]. split; [done|].
  split; [by rewrite fan_out_sinks|].
  split; [rewrite <- Hid; apply fan_out_batch|].
  split.
  - intros results Hok Hres.
    assert (Hdisp : dispatch predictor b =
      (COMPLETED,
       zip_with (fun it r => deliver_to b (Success r) it) (items b) results)).
    { apply dispatch_success; [by rewrite Hpay|].
      by rewrite <- (length_fmap resultSink), Hsinks. }
    unfold fan_out. rewrite Hstate, Hdisp. split; [done|]. cbn [fst snd].
    rewrite <- Hsinks, zip_with_fmap_l. unfold deliver_to. by rewrite Hid.
  - intros description Hfail.
    unfold fan_out. rewrite Hstate.
    rewrite (dispatch_failure predictor b description) by (by rewrite Hpay).
    split; [done|]. cbn [fst snd].
    rewrite <- Hsinks, <- list_fmap_compose. unfold deliver_to.
    by rewrite Hid.
Qed.

Lemma e2e_one_batch_of_32_witness :
  exists b : Batch nat,
    finished (run test_batcher_config echo (Submit 0 0 :: test_submissions)) = [b]
    /\ current (run test_batcher_config echo (Submit 0 0 :: test_submissions))
       = None
    /\ payload <$> items b = submitted (Submit 0 0 :: test_submissions)
    /\ resultSink <$> items b = seq 0 32
    /\ downstream_calls
         (run test_batcher_config echo (Submit 0 0 :: test_submissions))
       = [(id b, submitted (Submit 0 0 :: test_submissions))]
    /\ handles test_batcher_config echo new_engine
         (Submit 0 0 :: test_submissions)
       = (fun i => inr {| h_batch := id b; h_sink := i |}) <$> seq 0 32
    /\ d_sink <$> delivered
         (run test_batcher_config echo (Submit 0 0 :: test_submissions))
       = seq 0 32
    /\ Forall (fun d => d_batch d = id b)
         (delivered
            (run test_batcher_config echo (Submit 0 0 :: test_submissions)))
    /\ (forall results,
        echo (submitted (Submit 0 0 :: test_submissions)) = inr results ->
        length results = 32 ->
        state b = COMPLETED /\
        delivered (run test_batcher_config echo (Submit 0 0 :: test_submissions))
        = zip_with
            (fun i r => {| d_sink := i; d_batch := id b;
                           d_outcome := Success r |})
            (seq 0 32) results)
    /\ (forall description,
        echo (submitted (Submit 0 0 :: test_submissions)) = inl description ->
        state b = FAILED /\
        delivered (run test_batcher_config echo (Submit 0 0 :: test_submissions))
        = (fun i => {| d_sink := i; d_batch := id b;
                       d_outcome := Failure (InferenceError description) |})
          <$> seq 0 32).
Proof.
  apply (e2e_one_batch_of_32 echo 0%N 0 test_submissions).
  - vm_compute. repeat (constructor; [reflexivity|]). constructor.
  - reflexivity.
Defined.

Lemma batch_identity_witness :
  d_batch {| d_sink := 0; d_batch := 0; d_outcome := Success 10 |}
    = id small_batch0
  /\ d_batch {| d_sink := 2; d_batch := 1; d_outcome := Success 12 |}
    = id small_batch1
  /\ (d_batch {| d_sink := 0; d_batch := 0; d_outcome := Success 10 |}
      = d_batch {| d_sink := 2; d_batch := 1; d_outcome := Success 12 |}
      <-> 0 = 1).
Proof.
  apply (batch_identity small_config echo small_events 0 1
           small_batch0 small_batch1
           {| payload := 10; resultSink := 0; enqueuedAt := 0 |}
           {| payload := 12; resultSink := 2; enqueuedAt := 2 |}).
  - reflexivity.
  - reflexivity.
  - vm_compute. repeat constructor.
  - vm_compute. repeat constructor.
  - vm_compute. repeat constructor.
  - vm_compute. repeat constructor.
  - reflexivity.
  - reflexivity.
Defined.

Lemma batch_fails_atomically_witness :
  state failed_batch0 = FAILED
  /\ length (deliveries_of
       (run small_config failing [Submit 0 10; Submit 1 11]) (id failed_batch0))
     = length (items failed_batch0)
  /\ Forall (fun d => d_outcome d = Failure (InferenceError "model exploded")
                      /\ is_success (d_outcome d) = false)
       (deliveries_of
          (run small_config failing [Submit 0 10; Submit 1 11])
          (id failed_batch0))
  /\ (forall it d, it ∈ items failed_batch0 ->
      d ∈ delivered (run small_config failing [Submit 0 10; Submit 1 11]) ->
      d_sink d = resultSink it ->
      d_batch d = id failed_batch0 /\
      d_outcome d = Failure (InferenceError "model exploded"))
  /\ (forall it, it ∈ items failed_batch0 ->
      resolutions_of (run small_config failing [Submit 0 10; Submit 1 11])
        (resultSink it)
      = [{| d_sink := resultSink it; d_batch := id failed_batch0;
            d_outcome := Failure (InferenceError "model exploded") |}]).
Proof.
  apply (batch_fails_atomically small_config failing
           [Submit 0 10; Submit 1 11] failed_batch0 "model exploded").
  - vm_compute. repeat constructor.
  - reflexivity.
Defined.

Lemma exactly_once_delivery_witness :
  length (deliveries_of (run small_config echo small_events) (id small_batch0))
  = length (items small_batch0)
  /\ forall it, it ∈ items small_batch0 ->
       length (resolutions_of (run small_config echo small_events)
                 (resultSink it)) = 1.
Proof.
  apply (proj1 (exactly_once_delivery small_config echo small_events)
           small_batch0).
  vm_compute. repeat constructor.
Defined.

End BatcherFacts.

(* ===================================================================== *)
(** * Further properties of [model.py] and of the test's checks           *)
(* ===================================================================== *)

Module SKLearnMore.
Import SKLearn SKLearnWorlds SKLearnFacts.

(** *** Paths *)

Lemma string_app_assoc (a b c : string) : (a ++ b) ++ c = a ++ (b ++ c).
Proof.
  induction a as [|x a IH]; [reflexivity|].
  change (String x ((a ++ b) ++ c) = String x (a ++ (b ++ c))).
  by rewrite IH.
Qed.

(** The joined path ends with the entry it was joined with. *)
Lemma os_path_join_suffix a b : exists stem, os_path_join a b = stem ++ b.
Proof.
  unfold os_path_join. destruct (String.prefix "/" b).
  - by exists EmptyString.
  - destruct (_ || _).
    + by exists a.
    + exists (a ++ "/"). by rewrite string_app_assoc.
Qed.

Lemma endswith_join a b sufs :
  endswith b sufs = true -> endswith (os_path_join a b) sufs = true.
Proof.
  unfold endswith. rewrite !existsb_exists.
  intros (suf & Hin & Hb). exists suf. split; [done|].
  apply endswith1_suffix in Hb as [st ->].
  destruct (os_path_join_suffix a (st ++ suf)) as [st' ->].
  apply endswith1_suffix. exists (st' ++ st). by rewrite string_app_assoc.
Qed.


(** X13: an entry of the model directory is taken as a model file exactly
    when its joined path is a regular file and its name is some stem,
    possibly empty, followed by one of the three extensions as they are
    spelled. *)
Theorem model_file_test w model_path file :
  is_model_file w model_path file = true <->
  os_path_isfile w (os_path_join model_path file) = true /\
  exists stem, file = stem ++ ".joblib" \/ file = stem ++ ".pkl"
               \/ file = stem ++ ".pickle".
Proof.
  unfold is_model_file, endswith, MODEL_EXTENSIONS. cbn [existsb].
  rewrite andb_true_iff, !orb_true_iff, !endswith1_suffix.
  split.
  - intros [Hf [[st ->]|[[st ->]|[[st ->]|Hff]]]]; try discriminate;
      (split; [exact Hf | exists st; tauto]).
  - intros [Hf [st [->|[->| ->]]]]; (split; [exact Hf|]); eauto 6.
Qed.

(** *** [load] and its surroundings *)

Lemma load_download_raises w h e :
  Storage_download w (model_dir (self h)) = inl e -> load w h = (inl e, h).
Proof. intros Hd. unfold load, bind, lift, get_model_dir. by rewrite Hd. Qed.

Lemma load_listdir_raises w h p e :
  Storage_download w (model_dir (self h)) = inr p ->
  os_listdir w p = inl e -> load w h = (inl e, h).
Proof.
  intros Hd Hl. unfold load, bind, lift, get_model_dir. by rewrite Hd, Hl.
Qed.

Lemma filter_bool_Permutation {A} (f : A -> bool) (l l' : list A) :
  l ≡ₚ l' -> List.filter f l ≡ₚ List.filter f l'.
Proof.
  induction 1 as [|x l l' _ IH|x y l|l l' l'' _ IH1 _ IH2]; simpl.
  - done.
  - destruct (f x); by rewrite IH.
  - destruct (f x), (f y); try done. apply perm_swap.
  - by rewrite IH1.
Qed.

(** [load] in two surroundings that differ in the listing and in
    [joblib.load], but agree on the model entries and on what [joblib.load]
    makes of them. *)
Lemma load_congruence w w' h p files files' :
  Storage_download w (model_dir (self h)) = inr p ->
  Storage_download w' (model_dir (self h)) = inr p ->
  os_listdir w p = inr files -> os_listdir w' p = inr files' ->
  model_entries w' p files' = model_entries w p files ->
  (forall f, f ∈ model_entries w p files ->
     joblib_load w' (os_path_join p f) = joblib_load w (os_path_join p f)) ->
  repr_path w' = repr_path w ->
  load w' h = load w h.
Proof.
  intros Hd Hd' Hl Hl' Hent Hj Hrepr.
  rewrite (load_unfold w h p files Hd Hl), (load_unfold w' h p files' Hd' Hl').
  rewrite Hent.
  destruct (model_entries w p files) as [|f [|g l]] eqn:He; [done| |].
  - rewrite Hj by apply list_elem_of_here. done.
  - unfold more_than_one_msg, repr_paths. by rewrite Hrepr.
Qed.

(** X1: a failure of the storage download, or of listing the downloaded
    directory, leaves [load] as the very exception that was raised, with the
    object untouched. *)
Theorem load_environment_errors_propagate w h :
  (forall e, Storage_download w (model_dir (self h)) = inl e ->
     load w h = (inl e, h))
  /\ (forall p e, Storage_download w (model_dir (self h)) = inr p ->
     os_listdir w p = inl e -> load w h = (inl e, h)).
Proof.
  split; [apply load_download_raises | apply load_listdir_raises].
Qed.

Lemma load_environment_errors_propagate_witness :
  load world_unlistable (__init__ "sklearn-iris" "gs://bucket/model")
  = (inl (Exn (OtherException "NotADirectoryError") "/mnt/models"),
     __init__ "sklearn-iris" "gs://bucket/model").
Proof.
  apply (proj2 (load_environment_errors_propagate world_unlistable
                  (__init__ "sklearn-iris" "gs://bucket/model"))
           "/mnt/models"); reflexivity.
Defined.

(** X2: entries of the model directory that are not model files do not
    count: two listings with the same model entries, in the same order, give
    the same [load]. *)
Theorem load_ignores_other_entries w h p files files' :
  Storage_download w (model_dir (self h)) = inr p ->
  os_listdir w p = inr files ->
  model_entries w p files' = model_entries w p files ->
  load (with_listing w files') h = load w h.
Proof.
  intros Hd Hl Hent.
  by apply (load_congruence w (with_listing w files') h p files files').
Qed.

Lemma load_ignores_other_entries_witness :
  load (with_listing (world_of ["model.pkl"] ∅)
          ["notes.txt"; "model.pkl"; "model.pkl.bak"])
       (__init__ "sklearn-iris" "gs://bucket/model")
  = load (world_of ["model.pkl"] ∅) (__init__ "sklearn-iris" "gs://bucket/model").
Proof.
  apply (load_ignores_other_entries (world_of ["model.pkl"] ∅)
           (__init__ "sklearn-iris" "gs://bucket/model") "/mnt/models"
           ["model.pkl"]); reflexivity.
Defined.

(** X3: the order in which the directory is listed does not matter: with
    the entries permuted, [load] leaves the same object and has the same
    outcome, except that with several model files the message of the
    [RuntimeError] names them in the order listed. *)
Theorem load_listing_order_irrelevant w h p files files' :
  Storage_download w (model_dir (self h)) = inr p ->
  os_listdir w p = inr files ->
  files ≡ₚ files' ->
  (load (with_listing w files') h).2 = (load w h).2
  /\ ((load (with_listing w files') h).1 = (load w h).1
      \/ exists msg msg',
           (load w h).1 = inl (Exn RuntimeError msg) /\
           (load (with_listing w files') h).1 = inl (Exn RuntimeError msg')).
Proof.
  intros Hd Hl Hperm.
  pose proof (filter_bool_Permutation (is_model_file w p) _ _ Hperm) as Hent.
  fold (model_entries w p files) in Hent.
  fold (model_entries w p files') in Hent.
  destruct (model_entries w p files) as [|f [|g l]] eqn:He.
  - apply Permutation_nil_l in Hent.
    rewrite (load_congruence w (with_listing w files') h p files files');
      [by auto | done | done | done | done | by rewrite He | done | done].
  - apply Permutation_singleton_l in Hent.
    rewrite (load_congruence w (with_listing w files') h p files files');
      [by auto | done | done | done | done | by rewrite He | done | done].
  - rewrite (load_unfold w h p files Hd Hl), He.
    rewrite (load_unfold (with_listing w files') h p files' Hd eq_refl).
    change (model_entries (with_listing w files') p files')
      with (model_entries w p files').
    apply Permutation_length in Hent.
    destruct (model_entries w p files') as [|f' [|g' l']]; simpl in Hent;
      [lia | lia |].
    split; [done|]. right. eauto.
Qed.

Lemma load_listing_order_irrelevant_witness :
  (load (with_listing (world_of ["README.md"; "model.joblib"] ∅)
           ["model.joblib"; "README.md"])
        (__init__ "sklearn-iris" "gs://bucket/model")).2
  = (load (world_of ["README.md"; "model.joblib"] ∅)
          (__init__ "sklearn-iris" "gs://bucket/model")).2.
Proof.
  apply (load_listing_order_irrelevant
           (world_of ["README.md"; "model.joblib"] ∅)
           (__init__ "sklearn-iris" "gs://bucket/model") "/mnt/models"
           ["README.md"; "model.joblib"] ["model.joblib"; "README.md"]);
    [reflexivity | reflexivity | apply perm_swap].
Defined.

(** X4: [load] deserialises nothing but a path that ends in a model
    extension: what [joblib.load] would do on any other path has no bearing
    on [load]. *)
Theorem load_deserialises_model_files_only w j h :
  (forall path, endswith path MODEL_EXTENSIONS = true ->
     j path = joblib_load w path) ->
  load (with_joblib w j) h = load w h.
Proof.
  intros Hj.
  destruct (Storage_download w (model_dir (self h))) as [e|p] eqn:Hd.
  { rewrite (load_download_raises w h e Hd).
    by apply load_download_raises. }
  destruct (os_listdir w p) as [e|files] eqn:Hl.
  { rewrite (load_listdir_raises w h p e Hd Hl).
    by apply (load_listdir_raises (with_joblib w j) h p e). }
  apply (load_congruence w (with_joblib w j) h p files files); try done.
  intros f Hf. apply list_elem_of_In, filter_In in Hf as [_ Hf].
  unfold is_model_file in Hf. apply andb_true_iff in Hf as [Hfile Hext].
  apply Hj. by apply endswith_join.
Qed.

Lemma load_deserialises_model_files_only_witness :
  load (with_joblib (world_of ["model.pkl"; "README.md"] ∅) joblib_models_only)
       (__init__ "sklearn-iris" "gs://bucket/model")
  = load (world_of ["model.pkl"; "README.md"] ∅)
         (__init__ "sklearn-iris" "gs://bucket/model").
Proof.
  apply (load_deserialises_model_files_only
           (world_of ["model.pkl"; "README.md"] ∅) joblib_models_only
           (__init__ "sklearn-iris" "gs://bucket/model")).
  intros path Hext. unfold joblib_models_only. rewrite Hext. reflexivity.
Defined.

(** X5: loading again in the same surroundings changes nothing: after a
    [load] that returned, a second [load] returns [True] and leaves the object
    as the first one left it. *)
Theorem load_twice w h b :
  (load w h).1 = inr b -> load w (load w h).2 = load w h.
Proof.
  destruct (Storage_download w (model_dir (self h))) as [e|p] eqn:Hd;
    [by rewrite (load_download_raises w h e Hd)|].
  destruct (os_listdir w p) as [e|files] eqn:Hl;
    [by rewrite (load_listdir_raises w h p e Hd Hl)|].
  rewrite (load_unfold w h p files Hd Hl).
  destruct (model_entries w p files) as [|f [|g l]] eqn:He; try done.
  destruct (joblib_load w (os_path_join p f)) as [e|m] eqn:Hj; [done|].
  intros _. cbn [snd].
  match goal with
  | |- load w ?h1 = _ => rewrite (load_unfold w h1 p files Hd Hl)
  end.
  rewrite He, Hj. done.
Qed.

Lemma load_twice_witness :
  load (world_of ["model.joblib"] ∅)
       (load (world_of ["model.joblib"] ∅)
             (__init__ "sklearn-iris" "gs://bucket/model")).2
  = load (world_of ["model.joblib"] ∅)
         (__init__ "sklearn-iris" "gs://bucket/model").
Proof.
  apply (load_twice (world_of ["model.joblib"] ∅)
           (__init__ "sklearn-iris" "gs://bucket/model") true).
  reflexivity.
Defined.


(** *** [predict] and the object *)

(** X6: after a [load] that returned, [predict] on a payload with instances
    always reaches the estimator, with exactly one call; its result is what
    the envelope makes of the method selected; and it raises only when that
    method raised or [.tolist()] on what it returned raised, the exception
    leaving as the [try] statement lets it. *)
Theorem predict_after_load w h b payload x :
  (load w h).1 = inr b ->
  payload !! "instances" = Some x ->
  exists m,
    _model (self (load w h).2) = Some m
    /\ length (calls (predict w payload (load w h).2).2)
       = S (length (calls h))
    /\ (predict w payload (load w h).2).1
       = envelope_of (selected_method w m x)
    /\ forall e, (predict w payload (load w h).2).1 = inl e ->
         exists e0, e = reraised e0 /\
           (selected_method w m x = inl e0 \/
            exists a, selected_method w m x = inr a /\ tolist a = inl e0).
Proof.
  intros Hload Hx.
  destruct (load_return_ready w h b Hload) as (_ & _ & [m Hm]).
  assert (Hcalls : calls (load w h).2 = calls h).
  { revert Hload. unfold load, bind, lift, get_model_dir, raise.
    destruct (Storage_download w (model_dir (self h))) as [e1|p]; [done|].
    destruct (os_listdir w p) as [e2|files]; [done|].
    destruct (collect_model_files w p files []) as [|f [|g l]]; try done.
    destruct (joblib_load w f); done. }
  exists m. split; [done|]. split; [|split].
  - rewrite (predict_unfold w payload _ x m Hx Hm), <- Hcalls.
    destruct (env_predict_proba w); [destruct (est_predict_proba m)|];
      simpl; rewrite length_app; simpl; lia.
  - by apply predict_selected.
  - intros e He. rewrite (predict_selected w payload _ x m Hx Hm) in He.
    by apply envelope_raises.
Qed.

Lemma predict_after_load_witness :
  exists m,
    _model (self (load (world_of ["model.joblib"] ∅)
                       (__init__ "sklearn-iris" "gs://bucket/model")).2) = Some m
    /\ length (calls (predict (world_of ["model.joblib"] ∅) iris_payload
                        (load (world_of ["model.joblib"] ∅)
                              (__init__ "sklearn-iris" "gs://bucket/model")).2).2)
       = S (length (calls (__init__ "sklearn-iris" "gs://bucket/model")))
    /\ (predict (world_of ["model.joblib"] ∅) iris_payload
          (load (world_of ["model.joblib"] ∅)
                (__init__ "sklearn-iris" "gs://bucket/model")).2).1
       = envelope_of
           (selected_method (world_of ["model.joblib"] ∅) m
              (PList [PList [PInt 6; PInt 2]; PList [PInt 5; PInt 1]]))
    /\ forall e,
         (predict (world_of ["model.joblib"] ∅) iris_payload
            (load (world_of ["model.joblib"] ∅)
                  (__init__ "sklearn-iris" "gs://bucket/model")).2).1 = inl e ->
         exists e0, e = reraised e0 /\
           (selected_method (world_of ["model.joblib"] ∅) m
              (PList [PList [PInt 6; PInt 2]; PList [PInt 5; PInt 1]]) = inl e0 \/
            exists a,
              selected_method (world_of ["model.joblib"] ∅) m
                (PList [PList [PInt 6; PInt 2]; PList [PInt 5; PInt 1]]) = inr a
              /\ tolist a = inl e0).
Proof.
  apply (predict_after_load (world_of ["model.joblib"] ∅)
           (__init__ "sklearn-iris" "gs://bucket/model") true iris_payload
           (PList [PList [PInt 6; PInt 2]; PList [PInt 5; PInt 1]]));
    reflexivity.
Defined.

(** X7: on an object that was constructed and never loaded, [predict] on a
    payload with instances raises [InferenceError] for the missing [_model]
    attribute, calls no estimator and leaves the object as constructed. *)
Theorem predict_before_load w name0 dir0 payload x :
  payload !! "instances" = Some x ->
  predict w payload (__init__ name0 dir0)
  = (inl (Exn InferenceError "'SKLearnModel' object has no attribute '_model'"),
     __init__ name0 dir0).
Proof. intros Hx. by apply (predict_unloaded w payload _ x). Qed.

Lemma predict_before_load_witness :
  predict (world_of ["model.joblib"] ∅) iris_payload
    (__init__ "sklearn-iris" "gs://bucket/model")
  = (inl (Exn InferenceError "'SKLearnModel' object has no attribute '_model'"),
     __init__ "sklearn-iris" "gs://bucket/model").
Proof.
  apply (predict_before_load (world_of ["model.joblib"] ∅) "sklearn-iris"
           "gs://bucket/model" iris_payload
           (PList [PList [PInt 6; PInt 2]; PList [PInt 5; PInt 1]])).
  reflexivity.
Defined.

(** X8: [predict] never changes the object (name, directory, readiness,
    model), whatever it returns or raises, and it calls the estimator at most
    once, on the instances of the payload as they are. *)
Theorem predict_leaves_object w payload h :
  self (predict w payload h).2 = self h
  /\ (calls (predict w payload h).2 = calls h
      \/ exists x, payload !! "instances" = Some x /\
           (calls (predict w payload h).2 = (calls h ++ [CallPredict x])%list \/
            calls (predict w payload h).2
              = (calls h ++ [CallPredictProba x])%list)).
Proof.
  destruct (payload !! "instances") as [x|] eqn:Hx.
  - destruct (_model (self h)) as [m|] eqn:Hm.
    + rewrite (predict_unfold w payload h x m Hx Hm).
      destruct (env_predict_proba w); [destruct (est_predict_proba m)|];
        simpl; (split; [done|]); right; exists x; eauto.
    + rewrite (predict_unloaded w payload h x Hx Hm). simpl. auto.
  - rewrite (predict_no_instances w payload h Hx). simpl. auto.
Qed.

(** X9: [predict] reads nothing of the payload but its [instances] entry:
    two payloads that agree there get the same answer. *)
Theorem predict_reads_instances_only w (payload payload' : gmap string pyval) h :
  payload !! "instances" = payload' !! "instances" ->
  predict w payload h = predict w payload' h.
Proof.
  intros Heq. destruct (payload' !! "instances") as [x|] eqn:Hx'.
  - destruct (_model (self h)) as [m|] eqn:Hm.
    + by rewrite (predict_unfold w payload h x m Heq Hm),
        (predict_unfold w payload' h x m Hx' Hm).
    + by rewrite (predict_unloaded w payload h x Heq Hm),
        (predict_unloaded w payload' h x Hx' Hm).
  - by rewrite (predict_no_instances w payload h Heq),
      (predict_no_instances w payload' h Hx').
Qed.

Lemma predict_reads_instances_only_witness :
  predict (world_of [] ∅) (<[ "parameters" := PDict [] ]> iris_payload)
    (loaded est_rows)
  = predict (world_of [] ∅) iris_payload (loaded est_rows).
Proof.
  apply (predict_reads_instances_only (world_of [] ∅)
           (<[ "parameters" := PDict [] ]> iris_payload) iris_payload
           (loaded est_rows)).
  reflexivity.
Defined.


(** *** The object across calls *)

Lemma load_heap_cases w h :
  (load w h).2 = h \/
  exists m, (load w h).2 =
    {| self := {| name := name (self h); model_dir := model_dir (self h);
                  ready := true; _model := Some m |};
       calls := calls h |}.
Proof.
  unfold load, bind, lift, get_model_dir, raise.
  destruct (Storage_download w (model_dir (self h))) as [e1|p]; [by left|].
  destruct (os_listdir w p) as [e2|files]; [by left|].
  destruct (collect_model_files w p files []) as [|f [|g l]]; try by left.
  destruct (joblib_load w f) as [e|m]; [by left|]. right. by exists m.
Qed.

Lemma predict_self w payload h : self (predict w payload h).2 = self h.
Proof.
  destruct (payload !! "instances") as [x|] eqn:Hx.
  - destruct (_model (self h)) as [m|] eqn:Hm.
    + rewrite (predict_unfold w payload h x m Hx Hm).
      by destruct (env_predict_proba w); [destruct (est_predict_proba m)|].
    + by rewrite (predict_unloaded w payload h x Hx Hm).
  - by rewrite (predict_no_instances w payload h Hx).
Qed.

(** X11: [load] never renames the object, never changes its model directory
    and never calls the estimator, whether it returns or raises. *)
Theorem load_keeps_name_and_dir w h :
  name (self (load w h).2) = name (self h)
  /\ model_dir (self (load w h).2) = model_dir (self h)
  /\ calls (load w h).2 = calls h.
Proof. destruct (load_heap_cases w h) as [->|[m ->]]; done. Qed.

(** X12: from construction on, through any sequence of [load] and [predict]
    calls in any surroundings, returning or raising, the object is ready
    exactly when it holds a model; its name and model directory stay those it
    was constructed with. *)
Theorem ready_iff_model name0 dir0 cs :
  (ready (self (session cs (__init__ name0 dir0))) = true <->
   is_Some (_model (self (session cs (__init__ name0 dir0)))))
  /\ name (self (session cs (__init__ name0 dir0))) = name0
  /\ model_dir (self (session cs (__init__ name0 dir0))) = dir0.
Proof.
  unfold session.
  assert (Hgen : forall h,
    ((ready (self h) = true <-> is_Some (_model (self h)))
     /\ name (self h) = name0 /\ model_dir (self h) = dir0) ->
    (ready (self (fold_left invoke cs h)) = true <->
     is_Some (_model (self (fold_left invoke cs h))))
    /\ name (self (fold_left invoke cs h)) = name0
    /\ model_dir (self (fold_left invoke cs h)) = dir0).
  { induction cs as [|c cs IH]; intros h Hh; [done|].
    simpl. apply IH. destruct c as [w|w payload]; simpl.
    - destruct (load_heap_cases w h) as [->|[m ->]]; [done|]. simpl.
      destruct Hh as (_ & ? & ?). split; [|done]. split; eauto.
    - by rewrite predict_self. }
  apply Hgen. simpl. split; [|done]. split; [done|]. by intros [? ?].
Qed.

End SKLearnMore.

Module TestRawBatcherFacts.
Import TestRawBatcher.
#[local] Open Scope list_scope.

Lemma collect_fold (future_res : list Response) results codes :
  fold_left
    (fun '(results, response_codes) result =>
       (results ++ [batchId result], response_codes ++ [response_code result]))
    future_res (results, codes)
  = (results ++ (batchId <$> future_res),
     codes ++ (response_code <$> future_res)).
Proof.
  revert results codes.
  induction future_res as [|r rs IH]; intros results codes; simpl.
  - by rewrite !app_nil_r.
  - by rewrite IH, <- !app_assoc.
Qed.

Lemma collect_fmap future_res :
  collect future_res = (batchId <$> future_res, response_code <$> future_res).
Proof. unfold collect. by rewrite collect_fold. Qed.

(** A list has exactly one distinct element when it is not empty and all
    its elements are equal. *)
Lemma one_distinct `{Countable A} (l : list A) :
  size (list_to_set l : gset A) = 1 <->
  l <> [] /\ forall x y, x ∈ l -> y ∈ l -> x = y.
Proof.
  split.
  - intros Hsz. split.
    + intros ->. by rewrite list_to_set_nil, size_empty in Hsz.
    + intros x y Hx Hy.
      apply (size_singleton_inv (list_to_set l : gset A)); [done| |];
        by apply elem_of_list_to_set.
  - intros [Hne Hall]. destruct l as [|x l]; [done|].
    assert (Hset : (list_to_set (x :: l) : gset A) = {[ x ]}).
    { apply set_eq. intros y. rewrite elem_of_list_to_set, elem_of_singleton.
      split; [|intros ->; left].
      intros Hy. apply Hall; [done | left]. }
    rewrite Hset. apply size_singleton.
Qed.

(** The distinct elements of a list are exactly [v] when the list is not
    empty and holds nothing but [v]. *)
Lemma only_value `{Countable A} (l : list A) (v : A) :
  (list_to_set l : gset A) = {[ v ]} <-> l <> [] /\ forall x, x ∈ l -> x = v.
Proof.
  split.
  - intros Hset. split.
    + intros ->. rewrite list_to_set_nil in Hset.
      assert (v ∈ (∅ : gset A)) by (rewrite Hset; by apply elem_of_singleton).
      by apply not_elem_of_empty in H0.
    + intros x Hx. apply (elem_of_singleton (C := gset A)).
      rewrite <- Hset. by apply elem_of_list_to_set.
  - intros [Hne Hall]. apply set_eq. intros y.
    rewrite elem_of_list_to_set, elem_of_singleton. split; [by apply Hall|].
    intros ->. destruct l as [|x l]; [done|].
    rewrite <- (Hall x) by left. left.
Qed.

(** X10: the assertions that end [test_batcher_raw] pass exactly when at
    least one response was collected, all responses carry the same
    [batchId], and every response code is 200; with no response at all the
    test fails. *)
Theorem assertions_pass_iff future_res :
  assertions_pass future_res = true <->
  future_res <> []
  /\ (forall r r', r ∈ future_res -> r' ∈ future_res -> batchId r = batchId r')
  /\ (forall r, r ∈ future_res -> response_code r = 200%Z).
Proof.
  unfold assertions_pass. rewrite collect_fmap.
  unfold same_batch_id, all_codes_200.
  rewrite andb_true_iff, !bool_decide_eq_true, one_distinct, only_value.
  split.
  - intros [[Hne Hids] [_ Hcodes]]. split; [|split].
    + intros ->. done.
    + intros r r' Hr Hr'. apply Hids; by apply list_elem_of_fmap_2.
    + intros r Hr. apply Hcodes. by apply list_elem_of_fmap_2.
  - intros (Hne & Hids & Hcodes).
    assert (Hne' : forall {B} (g : Response -> B), g <$> future_res <> []).
    { intros B g. by destruct future_res. }
    split; (split; [apply Hne'|]).
    + intros x y (r & -> & Hr)%list_elem_of_fmap_1 (r' & -> & Hr')%list_elem_of_fmap_1.
      by apply Hids.
    + intros x (r & -> & Hr)%list_elem_of_fmap_1. by apply Hcodes.
Qed.

End TestRawBatcherFacts.
